(** * Crazy Contest API: a shallow embedding of [index.js]

    The server is an Express application over four MongoDB collections.
    Every route is embedded as a function from the request and the store
    to the new store and the outcome of the request: either the response
    that was sent (status code and JSON body) or the exception that
    escaped the asynchronous handler.

    Documents are JavaScript objects: association lists from property
    names to JSON values, read with first-match [lookup] and written
    with in-place-or-append [set_field], as property assignment and
    [$set] do.  JSON numbers are idealised as rationals, exact on the
    integer counters of the application.  JSON arrays and query
    documents made of [$]-operators are outside the model: the filters
    of the source are conjunctions of equalities.

    Requests are served one at a time; the interleaving of the awaits
    of concurrent requests is not modelled.  The routes that only list
    documents (leaderboard, contest and submission listings) read the
    store and are left out. *)

From Stdlib Require Import List String Ascii Bool ZArith NArith QArith Qround Lia.
Import ListNotations.
Local Open Scope string_scope.
Local Open Scope list_scope.

(** ** JSON / BSON values *)

Module Json.

#[warnings="-register-all"]
Inductive value : Type :=
| VNull
| VBool (b : bool)
| VNum (q : Q)
| VStr (s : string)
| VOid (n : N)
| VDoc (fields : list (string * value)).

Definition doc := list (string * value).

(** A JavaScript value read from an object: [None] is [undefined]. *)
Definition jsval := option value.

Fixpoint lookup (k : string) (d : doc) : jsval :=
  match d with
  | [] => None
  | (k', v) :: d' => if String.eqb k k' then Some v else lookup k d'
  end.

(** [obj.k = v], a key of an object literal after a spread, and a
    top-level [$set]: the value is replaced where the key is, or the key
    is appended. *)
Fixpoint set_field (k : string) (v : value) (d : doc) : doc :=
  match d with
  | [] => [(k, v)]
  | (k', v') :: d' =>
      if String.eqb k k' then (k, v) :: d' else (k', v') :: set_field k v d'
  end.

Fixpoint remove_field (k : string) (d : doc) : doc :=
  match d with
  | [] => []
  | (k', v) :: d' =>
      if String.eqb k k' then remove_field k d' else (k', v) :: remove_field k d'
  end.

Definition set_fields (kvs : doc) (d : doc) : doc :=
  fold_left (fun acc kv => set_field (fst kv) (snd kv) acc) kvs d.

(** The driver serialises [undefined] as BSON null ([ignoreUndefined]
    is off by default). *)
Definition bson (v : jsval) : value :=
  match v with
  | None => VNull
  | Some x => x
  end.

(** JavaScript truthiness, as used by [||], [!] and [if]. *)
Definition truthy (v : jsval) : bool :=
  match v with
  | None => false
  | Some VNull => false
  | Some (VBool b) => b
  | Some (VNum q) => negb (Qeq_bool q 0)
  | Some (VStr s) => negb (String.eqb s "")
  | Some (VOid _) => true
  | Some (VDoc _) => true
  end.

(** [a || dflt] where [dflt] is a literal. *)
Definition js_or (a : jsval) (dflt : value) : value :=
  if truthy a then bson a else dflt.

(** [a !== "s"] for a string [s]: strict inequality. *)
Definition strict_neq_str (a : jsval) (s : string) : bool :=
  match a with
  | Some (VStr s') => negb (String.eqb s' s)
  | _ => true
  end.

(** Equality of BSON values as the query engine compares them: numbers
    numerically, embedded documents field by field in order. *)
Fixpoint value_eqb (a b : value) : bool :=
  match a, b with
  | VNull, VNull => true
  | VBool x, VBool y => Bool.eqb x y
  | VNum x, VNum y => Qeq_bool x y
  | VStr x, VStr y => String.eqb x y
  | VOid x, VOid y => N.eqb x y
  | VDoc xs, VDoc ys =>
      (fix fields_eqb (xs ys : list (string * value)) {struct xs} : bool :=
         match xs, ys with
         | [], [] => true
         | (k, v) :: xs', (k', v') :: ys' =>
             String.eqb k k' && value_eqb v v' && fields_eqb xs' ys'
         | _, _ => false
         end) xs ys
  | _, _ => false
  end.

(** Induction on values that goes through embedded documents. *)
Section ValueInduction.

Variable P : value -> Prop.
Hypothesis HNull : P VNull.
Hypothesis HBool : forall b, P (VBool b).
Hypothesis HNum : forall q, P (VNum q).
Hypothesis HStr : forall s, P (VStr s).
Hypothesis HOid : forall n, P (VOid n).
Hypothesis HDoc :
  forall fs, Forall (fun kv => P (snd kv)) fs -> P (VDoc fs).

Fixpoint value_nested_ind (v : value) : P v :=
  match v with
  | VNull => HNull
  | VBool b => HBool b
  | VNum q => HNum q
  | VStr s => HStr s
  | VOid n => HOid n
  | VDoc fs =>
      HDoc fs
        ((fix all (l : list (string * value))
           : Forall (fun kv => P (snd kv)) l :=
            match l with
            | [] => Forall_nil _
            | kv :: l' => Forall_cons kv (value_nested_ind (snd kv)) (all l')
            end) fs)
  end.

End ValueInduction.

End Json.
Export Json.

(** ** ObjectId and Date *)

Module ObjectId.

Definition hex_digit (c : ascii) : option N :=
  let n := N_of_ascii c in
  if (48 <=? n)%N && (n <=? 57)%N then Some (n - 48)%N
  else if (97 <=? n)%N && (n <=? 102)%N then Some (n - 87)%N
  else if (65 <=? n)%N && (n <=? 70)%N then Some (n - 55)%N
  else None.

Fixpoint hex_value (s : string) (acc : N) : option N :=
  match s with
  | EmptyString => Some acc
  | String c s' =>
      match hex_digit c with
      | Some d => hex_value s' (16 * acc + d)%N
      | None => None
      end
  end.

(** [new ObjectId(id)] on a string: the 24 hexadecimal digit form is
    accepted, anything else makes the constructor throw. *)
Definition of_string (s : string) : option N :=
  if Nat.eqb (String.length s) 24 then hex_value s 0%N else None.

Definition digit_char (d : N) : ascii :=
  if (d <? 10)%N then ascii_of_N (48 + d) else ascii_of_N (87 + d).

Fixpoint to_hex (digits : nat) (n : N) (acc : string) : string :=
  match digits with
  | O => acc
  | S k => to_hex k (n / 16)%N (String (digit_char (n mod 16)%N) acc)
  end.

(** [oid.toString()]. *)
Definition toString (n : N) : string := to_hex 24 n "".

End ObjectId.

Section Dates.

(** [Date.parse] is the engine's; it is a parameter of the model.
    A time value is [None] when it is NaN (an Invalid Date). *)
Variable Date_parse : string -> option Z.

Definition TimeClip (q : Q) : option Z :=
  let t := if Qle_bool 0 q then Qfloor q else Qceiling q in
  if (Z.abs t <=? 8640000000000000)%Z then Some t else None.

(** [new Date(v)] for a value read from a stored document. *)
Definition new_Date (v : jsval) : option Z :=
  match v with
  | None => None
  | Some VNull => Some 0%Z
  | Some (VBool b) => Some (if b then 1 else 0)%Z
  | Some (VNum q) => TimeClip q
  | Some (VStr s) => Date_parse s
  | Some (VOid n) => Date_parse (ObjectId.toString n)
  | Some (VDoc _) => Date_parse "[object Object]"
  end.

(** [a < b] on two dates: false as soon as one side is NaN. *)
Definition date_lt (a b : option Z) : bool :=
  match a, b with
  | Some x, Some y => (x <? y)%Z
  | _, _ => false
  end.

(** [a >= b] on two dates, likewise false on NaN: the instant [a] is at
    or after the instant [b]. *)
Definition date_ge (a b : option Z) : bool :=
  match a, b with
  | Some x, Some y => (y <=? x)%Z
  | _, _ => false
  end.

End Dates.

(** ** The record store *)

Inductive collection : Type :=
| usersCollection
| contestsCollection
| participatedCollection
| submissionsCollection.

Record store : Type := mkStore {
  users : list doc;
  contests : list doc;
  participated : list doc;
  submissions : list doc
}.

Definition empty_store : store := mkStore [] [] [] [].

Definition coll_get (c : collection) (s : store) : list doc :=
  match c with
  | usersCollection => users s
  | contestsCollection => contests s
  | participatedCollection => participated s
  | submissionsCollection => submissions s
  end.

Definition coll_set (c : collection) (l : list doc) (s : store) : store :=
  match c with
  | usersCollection => mkStore l (contests s) (participated s) (submissions s)
  | contestsCollection => mkStore (users s) l (participated s) (submissions s)
  | participatedCollection => mkStore (users s) (contests s) l (submissions s)
  | submissionsCollection => mkStore (users s) (contests s) (participated s) l
  end.

(** *** Filters: conjunctions of equalities on top-level fields *)

Definition filter := list (string * value).

(** [{k: q}]: a null query also matches a document without the field. *)
Definition match_field (d : doc) (k : string) (q : value) : bool :=
  match lookup k d with
  | Some v => value_eqb v q
  | None => value_eqb VNull q
  end.

Definition matches (f : filter) (d : doc) : bool :=
  forallb (fun kq => match_field d (fst kq) (snd kq)) f.

Definition find_first (f : filter) (c : list doc) : option doc :=
  find (matches f) c.

Definition count_matching (f : filter) (c : list doc) : nat :=
  List.length (List.filter (matches f) c).

(** *** Update documents *)

Inductive error : Type :=
| BSONError          (* [new ObjectId] on an unacceptable argument *)
| DuplicateKey       (* E11000 on [_id] *)
| TypeMismatch       (* arithmetic on a non-numeric, non-null value *)
| DivideByZero       (* [$divide] by a numeric zero *)
| ImmutableField.    (* an update that would change [_id] *)

(** Aggregation expressions of the pipeline update. *)
Inductive expr : Type :=
| EField (name : string)              (* ["$name"] *)
| EConst (q : Q)
| EAdd (a b : expr)                   (* [{ $add: [a, b] }] *)
| EDivide (a b : expr)                (* [{ $divide: [a, b] }] *)
| EMultiply (a b : expr).             (* [{ $multiply: [a, b] }] *)

Definition nullish (v : value) : bool :=
  match v with VNull => true | _ => false end.

(** [$add] and [$multiply] read their operands left to right: the first
    nullish operand makes the result null, the first operand that is
    neither numeric nor nullish is an error. *)
Definition arith2 (f : Q -> Q -> Q) (a b : value) : value + error :=
  match a with
  | VNull => inl VNull
  | VNum x =>
      match b with
      | VNull => inl VNull
      | VNum y => inl (VNum (Qred (f x y)))
      | _ => inr TypeMismatch
      end
  | _ => inr TypeMismatch
  end.

(** [$divide]: two numbers are divided, a zero divisor being an error;
    otherwise a nullish operand gives null, and anything else is an
    error. *)
Definition divide2 (a b : value) : value + error :=
  match a, b with
  | VNum x, VNum y =>
      if Qeq_bool y 0 then inr DivideByZero else inl (VNum (Qred (x / y)))
  | _, _ =>
      if nullish a || nullish b then inl VNull else inr TypeMismatch
  end.

Fixpoint eval_expr (d : doc) (e : expr) : value + error :=
  match e with
  | EField k => inl (bson (lookup k d))
  | EConst q => inl (VNum q)
  | EAdd a b =>
      match eval_expr d a with
      | inr err => inr err
      | inl va =>
          if nullish va then inl VNull else
          match eval_expr d b with
          | inr err => inr err
          | inl vb => arith2 Qplus va vb
          end
      end
  | EMultiply a b =>
      match eval_expr d a with
      | inr err => inr err
      | inl va =>
          if nullish va then inl VNull else
          match eval_expr d b with
          | inr err => inr err
          | inl vb => arith2 Qmult va vb
          end
      end
  | EDivide a b =>
      match eval_expr d a with
      | inr err => inr err
      | inl va =>
          match eval_expr d b with
          | inr err => inr err
          | inl vb => divide2 va vb
          end
      end
  end.

(** One [$set] stage: every expression is evaluated on the stage's
    input document. *)
Fixpoint eval_stage (input : doc) (fields : list (string * expr)) (acc : doc)
  : doc + error :=
  match fields with
  | [] => inl acc
  | (k, e) :: rest =>
      match eval_expr input e with
      | inr err => inr err
      | inl v => eval_stage input rest (set_field k v acc)
      end
  end.

Fixpoint eval_pipeline (stages : list (list (string * expr))) (d : doc)
  : doc + error :=
  match stages with
  | [] => inl d
  | st :: rest =>
      match eval_stage d st d with
      | inr err => inr err
      | inl d' => eval_pipeline rest d'
      end
  end.

Inductive update : Type :=
| USet (fields : doc)                              (* [{ $set: {...} }] *)
| UInc (name : string) (amount : Q)                (* [{ $inc: { name: amount } }] *)
| UPipeline (stages : list (list (string * expr))). (* [[ { $set: ... }, ... ]] *)

(** The keys of a [$set] are top-level field names; [_id] cannot be
    given another value. *)
Definition apply_update (u : update) (d : doc) : doc + error :=
  match u with
  | USet kvs =>
      match lookup "_id" kvs with
      | None => inl (set_fields kvs d)
      | Some id =>
          if value_eqb (bson (lookup "_id" d)) id then inl (set_fields kvs d)
          else inr ImmutableField
      end
  | UInc k amt =>
      match lookup k d with
      | None => inl (set_field k (VNum amt) d)
      | Some (VNum q) => inl (set_field k (VNum (Qred (q + amt))) d)
      | Some _ => inr TypeMismatch
      end
  | UPipeline stages => eval_pipeline stages d
  end.

(** The first document matching the filter is rewritten; an error of
    the update leaves the collection as it was. *)
Fixpoint update_first (f : filter) (u : update) (c : list doc)
  : (list doc * option (doc * doc)) + error :=
  match c with
  | [] => inl ([], None)
  | d :: c' =>
      if matches f d then
        match apply_update u d with
        | inl d' => inl (d' :: c', Some (d, d'))
        | inr err => inr err
        end
      else
        match update_first f u c' with
        | inl (c'', r) => inl (d :: c'', r)
        | inr err => inr err
        end
  end.

Fixpoint delete_first (f : filter) (c : list doc) : list doc * bool :=
  match c with
  | [] => ([], false)
  | d :: c' =>
      if matches f d then (c', true)
      else let (c'', b) := delete_first f c' in (d :: c'', b)
  end.

(** *** Results reported by the driver *)

Definition num (n : Z) : value := VNum (inject_Z n).

Definition UpdateResult (matched modified : bool) : value :=
  VDoc [("acknowledged", VBool true);
        ("modifiedCount", num (if modified then 1 else 0));
        ("upsertedId", VNull);
        ("upsertedCount", num 0);
        ("matchedCount", num (if matched then 1 else 0))].

Definition InsertOneResult (id : value) : value :=
  VDoc [("acknowledged", VBool true); ("insertedId", id)].

Definition DeleteResult (deleted : bool) : value :=
  VDoc [("acknowledged", VBool true);
        ("deletedCount", num (if deleted then 1 else 0))].

(** *** Primary keys *)

Definition oid_of (d : doc) : N :=
  match lookup "_id" d with
  | Some (VOid n) => n
  | _ => 0%N
  end.

(** The driver's generated ObjectId: all that the model keeps of it is
    that it differs from every ObjectId already in the collection. *)
Definition fresh_oid (c : list doc) : N :=
  N.succ (fold_right (fun d m => N.max (oid_of d) m) 0%N c).

Definition has_id (id : value) (d : doc) : bool :=
  match lookup "_id" d with
  | Some id' => value_eqb id' id
  | None => false
  end.

(** [insertOne]: a missing or null [_id] is generated; [_id] is unique in
    a collection and is stored as the first field. *)
Definition insert_doc (d : doc) (c : list doc) : (list doc * value) + error :=
  let id := if nullish (bson (lookup "_id" d)) then VOid (fresh_oid c)
            else bson (lookup "_id" d) in
  if existsb (has_id id) c then inr DuplicateKey
  else inl (c ++ [("_id", id) :: remove_field "_id" d], id).

(** ** Handlers

    A handler runs on the store and ends either in the response it sent
    or in the exception that escaped it (the promise of an [async]
    handler rejected: no response is written). *)

Inductive outcome : Type :=
| Sent (status : nat) (body : value)
| Thrown (e : error).

Definition handler := store -> store * outcome.

(** An awaited driver call: it may change the store and may throw. *)
Definition op (A : Type) := store -> store * (A + error).

Definition await {A : Type} (m : op A) (k : A -> handler) : handler :=
  fun s =>
    match m s with
    | (s', inl a) => k a s'
    | (s', inr e) => (s', Thrown e)
    end.

Notation "'let*' x ':=' m 'in' k" := (await m (fun x => k))
  (at level 10, x name, m at level 100, k at level 200).

Definition send (status : nat) (body : value) : handler :=
  fun s => (s, Sent status body).

Definition message (m : string) : value := VDoc [("message", VStr m)].

Definition findOne (c : collection) (f : filter) : op (option doc) :=
  fun s => (s, inl (find_first f (coll_get c s))).

(** [findOne(f, { projection: { k: 0 } })]. *)
Definition findOne_excluding (c : collection) (f : filter) (k : string)
  : op (option doc) :=
  fun s => (s, inl (option_map (remove_field k) (find_first f (coll_get c s)))).

Definition insertOne (c : collection) (d : doc) : op value :=
  fun s =>
    match insert_doc d (coll_get c s) with
    | inl (l, id) => (coll_set c l s, inl (InsertOneResult id))
    | inr e => (s, inr e)
    end.

Definition matched (r : option (doc * doc)) : bool :=
  match r with
  | Some _ => true
  | None => false
  end.

Definition modified (r : option (doc * doc)) : bool :=
  match r with
  | Some (d, d') => negb (value_eqb (VDoc d) (VDoc d'))
  | None => false
  end.

Definition updateOne (c : collection) (f : filter) (u : update) : op value :=
  fun s =>
    match update_first f u (coll_get c s) with
    | inl (l, r) =>
        (coll_set c l s,
         inl (UpdateResult (matched r) (modified r)))
    | inr e => (s, inr e)
    end.

Definition deleteOne (c : collection) (f : filter) : op value :=
  fun s =>
    let (l, b) := delete_first f (coll_get c s) in
    (coll_set c l s, inl (DeleteResult b)).

(** [new ObjectId(id)] on a route parameter. *)
Definition new_ObjectId (id : string) : op value :=
  fun s =>
    match ObjectId.of_string id with
    | Some n => (s, inl (VOid n))
    | None => (s, inr BSONError)
    end.

(** *** Middleware *)

(** [verifyToken]: the credential is opaque; [Some email] is a token
    that verifies and whose payload carries [email]. *)
Definition verifyToken (token : option string) (next : string -> handler)
  : handler :=
  match token with
  | None => send 401 (message "Unauthorized access")
  | Some email => next email
  end.

Definition verifyRole (role : string) (email : string) (next : handler)
  : handler :=
  let* user := findOne usersCollection [("email", VStr email)] in
  if strict_neq_str (match user with
                     | Some u => lookup "role" u
                     | None => None
                     end) role
  then send 403 (message "Forbidden access")
  else next.

Definition verifyAdmin := verifyRole "Admin".
Definition verifyCreator := verifyRole "Contest Creator".

(** *** User management *)

(** The record built by [POST /users]:
    [{ ...user, role: user.role || 'Normal User', wins: 0,
       participatedCount: 0, winPercentage: 0, bio: '', address: '' }]. *)
Definition newUser (user : doc) : doc :=
  set_fields
    [("role", js_or (lookup "role" user) (VStr "Normal User"));
     ("wins", num 0);
     ("participatedCount", num 0);
     ("winPercentage", num 0);
     ("bio", VStr "");
     ("address", VStr "")]
    user.

(** [POST /users] *)
Definition post_users (user : doc) : handler :=
  let* existingUser :=
    findOne usersCollection [("email", bson (lookup "email" user))] in
  match existingUser with
  | Some _ =>
      send 200 (VDoc [("message", VStr "User already exists");
                      ("insertedId", VNull)])
  | None =>
      let* result := insertOne usersCollection (newUser user) in
      send 201 result
  end.

(** [GET /users/:email] *)
Definition get_users_email (token : option string) (email : string)
  : handler :=
  verifyToken token (fun decoded =>
    if negb (String.eqb email decoded)
    then send 403 (message "Forbidden access")
    else
      let* user :=
        findOne_excluding usersCollection [("email", VStr email)] "password" in
      send 200 (match user with Some u => VDoc u | None => VNull end)).

(** [PUT /users/:email] *)
Definition put_users_email (token : option string) (email : string)
    (updatedUser : doc) : handler :=
  verifyToken token (fun decoded =>
    if negb (String.eqb email decoded)
    then send 403 (message "Forbidden access")
    else
      let updateDoc :=
        USet [("name", bson (lookup "name" updatedUser));
              ("photo", bson (lookup "photo" updatedUser));
              ("address", bson (lookup "address" updatedUser))] in
      let* result :=
        updateOne usersCollection [("email", VStr email)] updateDoc in
      send 200 result).

(** *** Contests *)

(** [POST /contests] *)
Definition post_contests (token : option string) (newContest : doc)
  : handler :=
  verifyToken token (fun decoded =>
    verifyCreator decoded
      (let* result := insertOne contestsCollection newContest in
       send 201 result)).

(** [PUT /contests/:id] *)
Definition put_contests_id (token : option string) (id : string)
    (updatedContest : doc) : handler :=
  verifyToken token (fun decoded =>
    let* oid := new_ObjectId id in
    let filter := [("_id", oid); ("creatorEmail", VStr decoded);
                   ("status", VStr "Pending")] in
    let* result := updateOne contestsCollection filter (USet updatedContest) in
    send 200 result).

(** [DELETE /contests/:id] *)
Definition delete_contests_id (token : option string) (id : string)
  : handler :=
  verifyToken token (fun decoded =>
    let* oid := new_ObjectId id in
    let filter := [("_id", oid); ("creatorEmail", VStr decoded);
                   ("status", VStr "Pending")] in
    let* result := deleteOne contestsCollection filter in
    send 200 result).

(** [PATCH /contests/status/:id] *)
Definition patch_contests_status (token : option string) (id : string)
    (body : doc) : handler :=
  verifyToken token (fun decoded =>
    verifyAdmin decoded
      (let updateDoc := USet [("status", bson (lookup "status" body))] in
       let* oid := new_ObjectId id in
       let* result := updateOne contestsCollection [("_id", oid)] updateDoc in
       send 200 result)).

(** *** Participation *)

(** [GET /participated/check/:contestId]; [email] is the query
    parameter, absent when [None]. *)
Definition get_participated_check (token : option string) (contestId : string)
    (email : option string) : handler :=
  verifyToken token (fun decoded =>
    if strict_neq_str (option_map VStr email) decoded
    then send 403 (message "Forbidden access")
    else
      let* participation :=
        findOne participatedCollection
          [("contestId", VStr contestId);
           ("participantEmail", bson (option_map VStr email))] in
      send 200 (VDoc [("isRegistered",
                       VBool (match participation with
                              | Some _ => true
                              | None => false
                              end))])).

(** [new ObjectId(v)] on a field of a JSON body: a string is parsed, a
    missing, null or numeric argument makes the driver generate an id
    (which is the id of no stored document: [None]), anything else is
    rejected. *)
Definition new_ObjectId_of (v : jsval) : op (option value) :=
  fun s =>
    match v with
    | None | Some VNull | Some (VNum _) => (s, inl None)
    | Some (VStr id) =>
        match ObjectId.of_string id with
        | Some n => (s, inl (Some (VOid n)))
        | None => (s, inr BSONError)
        end
    | Some (VOid n) => (s, inl (Some (VOid n)))
    | Some (VBool _) | Some (VDoc _) => (s, inr BSONError)
    end.

(** [updateOne({ _id: oid }, u)] where [oid] may be a generated id. *)
Definition updateOne_by_id (c : collection) (oid : option value) (u : update)
  : op value :=
  match oid with
  | Some id => updateOne c [("_id", id)] u
  | None => fun s => (s, inl (UpdateResult false false))
  end.

(** [POST /participated] *)
Definition post_participated (token : option string) (participationInfo : doc)
  : handler :=
  verifyToken token (fun decoded =>
    let* result := insertOne participatedCollection participationInfo in
    let* oid := new_ObjectId_of (lookup "contestId" participationInfo) in
    let* _r1 :=
      updateOne_by_id contestsCollection oid (UInc "participantsCount" 1) in
    let* _r2 :=
      updateOne usersCollection
        [("email", bson (lookup "participantEmail" participationInfo))]
        (UInc "participatedCount" 1) in
    send 200 result).

(** *** Submissions *)

(** [POST /submissions] *)
Definition post_submissions (token : option string) (submissionInfo : doc)
  : handler :=
  verifyToken token (fun decoded =>
    let* isRegistered :=
      findOne participatedCollection
        [("contestId", bson (lookup "contestId" submissionInfo));
         ("participantEmail", bson (lookup "participantEmail" submissionInfo))] in
    match isRegistered with
    | None =>
        send 403 (message "User has not registered for this contest.")
    | Some _ =>
        let* user :=
          findOne usersCollection
            [("email", bson (lookup "participantEmail" submissionInfo))] in
        let submissionInfo' :=
          set_field "participantName"
            (js_or (match user with
                    | Some u => lookup "name" u
                    | None => None
                    end) (VStr "Unknown User"))
            submissionInfo in
        let* result := insertOne submissionsCollection submissionInfo' in
        send 200 result
    end).

(** *** Winner declaration *)

Section WinnerDeclaration.

Variable Date_parse : string -> option Z.

(** The pipeline of the statistics update:
    [[ { $set: { wins: { $add: ["$wins", 1] } } },
       { $set: { winPercentage: { $multiply: [
           { $divide: ["$wins", "$participatedCount"] }, 100 ] } } } ]] *)
Definition winner_stats : update :=
  UPipeline
    [ [("wins", EAdd (EField "wins") (EConst 1))];
      [("winPercentage",
        EMultiply (EDivide (EField "wins") (EField "participatedCount"))
                  (EConst 100))] ].

(** The eligibility test of the handler:
    [new Date() < new Date(contest.deadline) || contest.winner]. *)
Definition not_eligible (now : Z) (contest : doc) : bool :=
  date_lt (Some now) (new_Date Date_parse (lookup "deadline" contest))
  || truthy (lookup "winner" contest).

(** [PUT /contests/declare-winner/:id]; [now] is the clock read by
    [new Date()]. *)
Definition put_contests_declare_winner (now : Z) (token : option string)
    (id : string) (body : doc) : handler :=
  verifyToken token (fun decoded =>
    verifyCreator decoded
      (let winnerEmail := lookup "winnerEmail" body in
       let* oid := new_ObjectId id in
       let* contest := findOne contestsCollection [("_id", oid)] in
       match contest with
       | None => send 403 (message "Forbidden or Contest not found")
       | Some contest =>
           if strict_neq_str (lookup "creatorEmail" contest) decoded
           then send 403 (message "Forbidden or Contest not found")
           else if not_eligible now contest
           then send 400
                  (message "Contest must be ended and winner not declared.")
           else
             let* winnerUser :=
               findOne usersCollection [("email", bson winnerEmail)] in
             match winnerUser with
             | None => send 404 (message "Winner user not found")
             | Some winnerUser =>
                 let* updateContestResult :=
                   updateOne contestsCollection [("_id", oid)]
                     (USet
                        [("winner",
                          VDoc [("email", bson (lookup "email" winnerUser));
                                ("name", bson (lookup "name" winnerUser));
                                ("photo", bson (lookup "photo" winnerUser));
                                ("prizeMoney",
                                 bson (lookup "prizeMoney" contest))]);
                         ("status", VStr "Closed")]) in
                 let* _r :=
                   updateOne usersCollection [("email", bson winnerEmail)]
                     winner_stats in
                 send 200 updateContestResult
             end
       end)).

(** ** The API as a transition system *)

Inductive request : Type :=
| POST_users (user : doc)
| GET_users_email (token : option string) (email : string)
| PUT_users_email (token : option string) (email : string) (body : doc)
| POST_contests (token : option string) (body : doc)
| PUT_contests_id (token : option string) (id : string) (body : doc)
| DELETE_contests_id (token : option string) (id : string)
| PATCH_contests_status (token : option string) (id : string) (body : doc)
| GET_participated_check (token : option string) (contestId : string)
    (email : option string)
| POST_participated (token : option string) (body : doc)
| POST_submissions (token : option string) (body : doc)
| PUT_contests_declare_winner (now : Z) (token : option string) (id : string)
    (body : doc).

Definition handle (r : request) : handler :=
  match r with
  | POST_users user => post_users user
  | GET_users_email t e => get_users_email t e
  | PUT_users_email t e b => put_users_email t e b
  | POST_contests t b => post_contests t b
  | PUT_contests_id t i b => put_contests_id t i b
  | DELETE_contests_id t i => delete_contests_id t i
  | PATCH_contests_status t i b => patch_contests_status t i b
  | GET_participated_check t c e => get_participated_check t c e
  | POST_participated t b => post_participated t b
  | POST_submissions t b => post_submissions t b
  | PUT_contests_declare_winner now t i b =>
      put_contests_declare_winner now t i b
  end.

(** The store after a sequence of requests, served one after the other. *)
Definition serve (rs : list request) (s : store) : store :=
  fold_left (fun st r => fst (handle r st)) rs s.


End WinnerDeclaration.


(** * The rest of the server *)

From Stdlib Require Import Permutation Sorted.

(** ** The credential of a request

    [verifyToken] of [index.js] reads the token from the Authorization
    header when that starts with ["Bearer "], and from the [token]
    cookie otherwise; [jwt.verify] is the library's and is a parameter. *)

Module Credential.

(** [s.split(sep)] for a one-character separator. *)
Fixpoint split (sep : ascii) (s : string) : list string :=
  match s with
  | EmptyString => [EmptyString]
  | String c s' =>
      if Ascii.eqb c sep then EmptyString :: split sep s'
      else
        match split sep s' with
        | [] => [String c EmptyString]
        | w :: ws => String c w :: ws
        end
  end.

(** The value of [token] when [if (!token)] is reached; [None] is
    [undefined]. *)
Definition request_token (authorization cookie : option string)
  : option string :=
  match authorization with
  | Some h =>
      if negb (String.eqb h "") && String.prefix "Bearer " h
      then nth_error (split " " h) 1
      else cookie
  | None => cookie
  end.

Definition unauthorized : value := message "Unauthorized access".

(** [verifyToken]: [next] receives [req.decoded]. *)
Definition verifyToken_request (jwt_verify : string -> option doc)
    (authorization cookie : option string) (next : doc -> handler) : handler :=
  match request_token authorization cookie with
  | None => send 401 unauthorized
  | Some token =>
      if String.eqb token "" then send 401 unauthorized
      else
        match jwt_verify token with
        | None => send 401 unauthorized
        | Some decoded => next decoded
        end
  end.

End Credential.

(** ** The database connection

    [connectDB] keeps a module-level client and an [isConnected] flag;
    [ensureDBConnection] runs it before every route.  Whether
    [client.connect()] succeeds is the environment's: a parameter of
    each call. *)

Module Connection.

Record state : Type := mkState {
  isConnected : bool;
  client : option nat;      (* the client in use, numbered by creation *)
  created : nat             (* [new MongoClient] calls so far *)
}.

Definition initial : state := mkState false None 0.

(** [connectDB()]: [true] when it returns, [false] when it throws. *)
Definition connectDB (connects : bool) (c : state) : state * bool :=
  match isConnected c, client c with
  | true, Some _ => (c, true)
  | _, _ =>
      let fresh := S (created c) in
      if connects then (mkState true (Some fresh) fresh, true)
      else (mkState false (Some fresh) fresh, false)
  end.

(** [ensureDBConnection]: the route runs only behind a connection. *)
Definition ensureDBConnection (connects : bool) (next : handler)
    (cs : state * store) : state * (store * outcome) :=
  match connectDB connects (fst cs) with
  | (c', true) => (c', next (snd cs))
  | (c', false) =>
      (c', (snd cs,
            Sent 500 (VDoc [("error", VStr "Database connection failed")])))
  end.

(** A run of requests, each with the fate of its connection attempt. *)
Fixpoint run (reqs : list (bool * handler)) (cs : state * store)
  : state * store :=
  match reqs with
  | [] => cs
  | (connects, h) :: rest =>
      let (c', r) := ensureDBConnection connects h cs in
      run rest (c', fst r)
  end.

End Connection.

(** ** Routes that read the store *)

(** What escapes a route that reads: an error of the driver, or a
    [TypeError] of the engine (a method called on [null]). *)
Inductive exception : Type :=
| DriverError (e : error)
| TypeError.

(** The response of a reading route: a JSON value, a JSON array of
    documents, or the page object of the admin listing. *)
Inductive reply : Type :=
| Answer (status : nat) (body : value)
| Listing (status : nat) (items : list doc)
| Raised (e : exception).

Definition reader := store -> reply.

Definition forbidden : value := message "Forbidden access".

(** [verifyToken] and the role middleware in front of a reading route. *)
Definition verifyToken_r (token : option string) (next : string -> reader)
  : reader :=
  match token with
  | None => fun _ => Answer 401 (message "Unauthorized access")
  | Some email => next email
  end.

Definition role_of (email : string) (s : store) : jsval :=
  match find_first [("email", VStr email)] (users s) with
  | Some u => lookup "role" u
  | None => None
  end.

Definition verifyRole_r (role email : string) (next : reader) : reader :=
  fun s =>
    if strict_neq_str (role_of email s) role then Answer 403 forbidden
    else next s.

(** [find(f).toArray()]: the matching documents, in collection order. *)
Definition find_all (f : filter) (c : list doc) : list doc :=
  List.filter (matches f) c.

(** A property of an object literal as [JSON.stringify] sends it: one
    whose value is [undefined] is left out. *)
Definition json_set (k : string) (v : jsval) (d : doc) : doc :=
  match v with
  | Some x => set_field k x d
  | None => remove_field k d
  end.

(** [a || b] on two values read from objects. *)
Definition js_or2 (a b : jsval) : jsval := if truthy a then a else b.

(** *** Users *)

(** [GET /users] *)
Definition get_users : reader := fun s => Listing 200 (users s).

(** [GET /users/role/:email] *)
Definition get_users_role (token : option string) (email : string) : reader :=
  verifyToken_r token (fun decoded =>
    if negb (String.eqb email decoded) then fun _ => Answer 403 forbidden
    else fun s =>
      Answer 200
        (VDoc [("role", js_or (role_of email s) (VStr "Normal User"))])).

(** *** Sorting

    The order of BSON values of the server: by type first (null, then
    numbers, strings, embedded documents, ObjectIds, booleans), then
    within the type; a missing sort key counts as null.  Documents that
    compare equal are left in collection order, which the server does not
    promise; no statement below depends on it. *)

Definition type_rank (v : value) : nat :=
  match v with
  | VNull => 1
  | VNum _ => 2
  | VStr _ => 3
  | VDoc _ => 4
  | VOid _ => 7
  | VBool _ => 8
  end.

Definition then_compare (c : comparison) (rest : comparison) : comparison :=
  match c with
  | Eq => rest
  | _ => c
  end.

Fixpoint bson_compare (a b : value) : comparison :=
  match a, b with
  | VNull, VNull => Eq
  | VNum x, VNum y => Qcompare x y
  | VStr x, VStr y => String.compare x y
  | VOid x, VOid y => N.compare x y
  | VBool x, VBool y => Bool.compare x y
  | VDoc xs, VDoc ys =>
      (fix fields (xs ys : list (string * value)) {struct xs} : comparison :=
         match xs, ys with
         | [], [] => Eq
         | [], _ :: _ => Lt
         | _ :: _, [] => Gt
         | (k, v) :: xs', (k', v') :: ys' =>
             then_compare (Nat.compare (type_rank v) (type_rank v'))
               (then_compare (String.compare k k')
                  (then_compare (bson_compare v v') (fields xs' ys')))
         end) xs ys
  | _, _ => Nat.compare (type_rank a) (type_rank b)
  end.

(** One key of a sort specification: the field and whether it is
    descending ([-1]). *)
Definition sort_key := (string * bool)%type.

Fixpoint sort_compare (keys : list sort_key) (a b : doc) : comparison :=
  match keys with
  | [] => Eq
  | (k, descending) :: rest =>
      let c := bson_compare (bson (lookup k a)) (bson (lookup k b)) in
      then_compare (if descending then CompOpp c else c)
        (sort_compare rest a b)
  end.

Definition sort_le (keys : list sort_key) (a b : doc) : bool :=
  match sort_compare keys a b with
  | Gt => false
  | _ => true
  end.

Fixpoint insert_sorted (le : doc -> doc -> bool) (x : doc) (l : list doc)
  : list doc :=
  match l with
  | [] => [x]
  | y :: l' => if le x y then x :: l else y :: insert_sorted le x l'
  end.

(** [cursor.sort(keys)] *)
Definition sort_by (keys : list sort_key) (l : list doc) : list doc :=
  fold_right (insert_sorted (sort_le keys)) [] l.

(** An inclusion projection: the listed fields, in document order. *)
Definition project (keys : list string) (d : doc) : doc :=
  List.filter (fun kv => existsb (String.eqb (fst kv)) keys) d.

(** [{ k: { $gt: 0 } }]: a number above zero. *)
Definition gt_zero (k : string) (d : doc) : bool :=
  match lookup k d with
  | Some (VNum q) => negb (Qle_bool q 0)
  | _ => false
  end.

(** [GET /users/leaderboard] *)
Definition get_users_leaderboard : reader := fun s =>
  Listing 200
    (map (project ["name"; "email"; "photo"; "wins"; "_id"])
       (firstn 10
          (sort_by [("wins", true); ("participatedCount", false)]
             (List.filter (gt_zero "wins") (users s))))).

(** *** Contests *)

(** The query of [GET /contests/approved]; [type] is the query
    parameter. *)
Definition approved_query (type : option string) : filter :=
  match type with
  | Some t =>
      if negb (String.eqb t "") && negb (String.eqb t "All")
      then [("status", VStr "Confirmed"); ("type", VStr t)]
      else [("status", VStr "Confirmed")]
  | None => [("status", VStr "Confirmed")]
  end.

(** [GET /contests/approved] *)
Definition get_contests_approved (type : option string) : reader := fun s =>
  Listing 200
    (sort_by [("participantsCount", true)]
       (find_all (approved_query type) (contests s))).

(** [GET /contests/popular] *)
Definition get_contests_popular : reader := fun s =>
  Listing 200
    (firstn 6
       (sort_by [("participantsCount", true)]
          (find_all [("status", VStr "Confirmed")] (contests s)))).

(** [GET /contests/creator/:email] *)
Definition get_contests_creator (token : option string) (email : string)
  : reader :=
  verifyToken_r token (fun decoded =>
    if negb (String.eqb email decoded) then fun _ => Answer 403 forbidden
    else fun s =>
      Listing 200 (find_all [("creatorEmail", VStr email)] (contests s))).

(** [GET /contests/:id] *)
Definition get_contests_id (token : option string) (id : string) : reader :=
  verifyToken_r token (fun decoded => fun s =>
    match ObjectId.of_string id with
    | None => Raised (DriverError BSONError)
    | Some n =>
        Answer 200
          (match find_first [("_id", VOid n)] (contests s) with
           | Some contest => VDoc contest
           | None => VNull
           end)
    end).

(** [{ 'winner.email': email }]: the field of the embedded document. *)
Definition winner_email_is (email : string) (d : doc) : bool :=
  match lookup "winner" d with
  | Some (VDoc w) =>
      match lookup "email" w with
      | Some v => value_eqb v (VStr email)
      | None => false
      end
  | _ => false
  end.

(** [GET /contests/winner/:email] *)
Definition get_contests_winner (token : option string) (email : string)
  : reader :=
  verifyToken_r token (fun decoded =>
    if negb (String.eqb email decoded) then fun _ => Answer 403 forbidden
    else fun s => Listing 200 (List.filter (winner_email_is email) (contests s))).

(** *** Joins done in the handler *)

Section Joins.

(** [String(n)] for a number is the engine's: a parameter. *)
Variable Number_toString : Q -> string.

(** [v.toString()] on the [_id] of a document. *)
Definition id_toString (v : jsval) : string + exception :=
  match v with
  | None | Some VNull => inr TypeError
  | Some (VOid n) => inl (ObjectId.toString n)
  | Some (VStr s) => inl s
  | Some (VNum q) => inl (Number_toString q)
  | Some (VBool b) => inl (if b then "true" else "false")
  | Some (VDoc _) => inl "[object Object]"
  end.

(** [cs.find(c => c._id.toString() === t)] *)
Fixpoint find_by_id_string (t : jsval) (cs : list doc)
  : option doc + exception :=
  match cs with
  | [] => inl None
  | c :: cs' =>
      match id_toString (lookup "_id" c) with
      | inr e => inr e
      | inl s =>
          if match t with
             | Some (VStr t') => String.eqb s t'
             | _ => false
             end
          then inl (Some c)
          else find_by_id_string t cs'
      end
  end.

(** [xs.map(f)] where [f] may throw: the first exception escapes. *)
Fixpoint map_throwing {A B E : Type} (f : A -> B + E) (xs : list A)
  : list B + E :=
  match xs with
  | [] => inl []
  | x :: xs' =>
      match f x with
      | inr e => inr e
      | inl y =>
          match map_throwing f xs' with
          | inr e => inr e
          | inl ys => inl (y :: ys)
          end
      end
  end.

(** [new ObjectId(v)] on a stored field, as in [new_ObjectId_of]. *)
Definition objectId_of (v : jsval) : option value + exception :=
  match v with
  | None | Some VNull | Some (VNum _) => inl None
  | Some (VStr id) =>
      match ObjectId.of_string id with
      | Some n => inl (Some (VOid n))
      | None => inr (DriverError BSONError)
      end
  | Some (VOid n) => inl (Some (VOid n))
  | Some (VBool _) | Some (VDoc _) => inr (DriverError BSONError)
  end.

(** [{ _id: { $in: ids } }] *)
Definition id_in (ids : list (option value)) (c : doc) : bool :=
  existsb (fun id => match id with
                     | Some v => match_field c "_id" v
                     | None => false
                     end) ids.

Definition field_of (detail : option doc) (k : string) : jsval :=
  match detail with
  | Some d => lookup k d
  | None => None
  end.

(** One element of [mergedData] in [GET /participated/:email]. *)
Definition merge_participation (contestsDetails : list doc) (p : doc)
  : doc + exception :=
  match find_by_id_string (lookup "contestId" p) contestsDetails with
  | inr e => inr e
  | inl detail =>
      inl (json_set "image" (field_of detail "image")
             (json_set "deadline" (field_of detail "deadline")
                (json_set "contestName" (field_of detail "name") p)))
  end.

(** [GET /participated/:email] *)
Definition get_participated_email (token : option string) (email : string)
  : reader :=
  verifyToken_r token (fun decoded =>
    if negb (String.eqb email decoded) then fun _ => Answer 403 forbidden
    else fun s =>
      let participatedList :=
        find_all [("participantEmail", VStr email)] (participated s) in
      match map_throwing (fun p => objectId_of (lookup "contestId" p))
              participatedList with
      | inr e => Raised e
      | inl contestIds =>
          let contestsDetails := List.filter (id_in contestIds) (contests s) in
          match map_throwing (merge_participation contestsDetails)
                  participatedList with
          | inr e => Raised e
          | inl mergedData => Listing 200 mergedData
          end
      end).

(** [{ contestId: { $in: contestIds } }] on strings. *)
Definition contestId_in (contestIds : list string) (sub : doc) : bool :=
  existsb (fun id => match_field sub "contestId" (VStr id)) contestIds.

(** One element of [mergedSubmissions]. *)
Definition merge_submission (creatorContests : list doc) (sub : doc)
  : doc + exception :=
  match find_by_id_string (lookup "contestId" sub) creatorContests with
  | inr e => inr e
  | inl contest =>
      inl (json_set "contestName"
             (js_or2 (field_of contest "name") (lookup "contestName" sub))
             sub)
  end.

(** [GET /submissions/creator/:email]; [contestIdFilter] is the
    [contestId] query parameter. *)
Definition get_submissions_creator (token : option string)
    (creatorEmail : string) (contestIdFilter : option string) : reader :=
  verifyToken_r token (fun decoded =>
    verifyRole_r "Contest Creator" decoded (fun s =>
      let byId :=
        match contestIdFilter with
        | None => inl []
        | Some f =>
            if String.eqb f "" then inl []
            else match ObjectId.of_string f with
                 | Some n => inl [("_id", VOid n)]
                 | None => inr (DriverError BSONError)
                 end
        end in
      match byId with
      | inr e => Raised e
      | inl idQuery =>
          let creatorContests :=
            find_all (("creatorEmail", VStr creatorEmail) :: idQuery)
              (contests s) in
          match map_throwing (fun c => id_toString (lookup "_id" c))
                  creatorContests with
          | inr e => Raised e
          | inl contestIds =>
              let subs :=
                List.filter (contestId_in contestIds) (submissions s) in
              match map_throwing (merge_submission creatorContests) subs with
              | inr e => Raised e
              | inl mergedSubmissions => Listing 200 mergedSubmissions
              end
          end
      end)).

End Joins.

(** ** The routing table

    Express tries the routes in the order of registration and hands the
    request to the first whose method and path match; none of the
    handlers passes the request on.  A path is given by its segments;
    literal segments are compared without regard to case. *)

Module Router.

Inductive method : Type := GET | POST | PUT | PATCH | DELETE.

Inductive segment : Type :=
| Lit (s : string)
| Param.

Inductive route : Type :=
| root | jwt | logout
| users_leaderboard | users_list | users_register | users_role
| users_email_get | users_email_put
| contests_create | contests_creator | contests_edit | contests_delete
| contests_approved | contests_popular | contests_id | contests_all
| contests_status
| participated_check | participated_create | participated_email
| submissions_create | submissions_creator
| contests_declare_winner | contests_winner.

Definition lower_ascii (c : ascii) : ascii :=
  let n := N_of_ascii c in
  if (65 <=? n)%N && (n <=? 90)%N then ascii_of_N (n + 32) else c.

Fixpoint lowercase (s : string) : string :=
  match s with
  | EmptyString => EmptyString
  | String c s' => String (lower_ascii c) (lowercase s')
  end.

Definition method_eqb (a b : method) : bool :=
  match a, b with
  | GET, GET | POST, POST | PUT, PUT | PATCH, PATCH | DELETE, DELETE => true
  | _, _ => false
  end.

Fixpoint path_matches (pattern : list segment) (path : list string) : bool :=
  match pattern, path with
  | [], [] => true
  | Lit s :: pattern', x :: path' =>
      String.eqb (lowercase s) (lowercase x) && path_matches pattern' path'
  | Param :: pattern', x :: path' =>
      negb (String.eqb x "") && path_matches pattern' path'
  | _, _ => false
  end.

(** The registrations of [index.js], in order. *)
Definition table : list (method * list segment * route) :=
  [ (GET, [], root);
    (POST, [Lit "jwt"], jwt);
    (POST, [Lit "logout"], logout);
    (GET, [Lit "users"; Lit "leaderboard"], users_leaderboard);
    (GET, [Lit "users"], users_list);
    (POST, [Lit "users"], users_register);
    (GET, [Lit "users"; Lit "role"; Param], users_role);
    (GET, [Lit "users"; Param], users_email_get);
    (PUT, [Lit "users"; Param], users_email_put);
    (POST, [Lit "contests"], contests_create);
    (GET, [Lit "contests"; Lit "creator"; Param], contests_creator);
    (PUT, [Lit "contests"; Param], contests_edit);
    (DELETE, [Lit "contests"; Param], contests_delete);
    (GET, [Lit "contests"; Lit "approved"], contests_approved);
    (GET, [Lit "contests"; Lit "popular"], contests_popular);
    (GET, [Lit "contests"; Param], contests_id);
    (GET, [Lit "contests"; Lit "all"], contests_all);
    (PATCH, [Lit "contests"; Lit "status"; Param], contests_status);
    (GET, [Lit "participated"; Lit "check"; Param], participated_check);
    (POST, [Lit "participated"], participated_create);
    (GET, [Lit "participated"; Param], participated_email);
    (POST, [Lit "submissions"], submissions_create);
    (GET, [Lit "submissions"; Lit "creator"; Param], submissions_creator);
    (PUT, [Lit "contests"; Lit "declare-winner"; Param],
     contests_declare_winner);
    (GET, [Lit "contests"; Lit "winner"; Param], contests_winner) ].

Fixpoint dispatch_in (t : list (method * list segment * route)) (m : method)
    (path : list string) : option route :=
  match t with
  | [] => None
  | (m', pattern, r) :: t' =>
      if method_eqb m m' && path_matches pattern path then Some r
      else dispatch_in t' m path
  end.

Definition dispatch : method -> list string -> option route :=
  dispatch_in table.

End Router.
(** ** Predicates on stores *)

(** The statistics of a user record are numbers. *)
Definition stats_numeric (u : doc) : Prop :=
  (exists w, lookup "wins" u = Some (VNum w))
  /\ (exists p, lookup "participatedCount" u = Some (VNum p)).


(** The Participation records of a (contest, participant) pair. *)
Definition participations (contestId email : string) (s : store) : nat :=
  count_matching [("contestId", VStr contestId);
                  ("participantEmail", VStr email)] (participated s).

(** ** Responses and relations used in the statements *)

(** What [updateOne] does to a collection. *)
Inductive updated_first (f : filter) (u : update)
  : list doc -> list doc -> option (doc * doc) -> Prop :=
| updated_none (c : list doc) :
    find_first f c = None -> updated_first f u c c None
| updated_some (pre post : list doc) (d d' : doc) :
    (forall x, In x pre -> matches f x = false) ->
    matches f d = true ->
    apply_update u d = inl d' ->
    updated_first f u (pre ++ d :: post) (pre ++ d' :: post) (Some (d, d')).

Definition already_exists : value :=
  VDoc [("message", VStr "User already exists"); ("insertedId", VNull)].

Definition profile_fields : list string := ["name"; "photo"; "address"].

Definition same_outside (keys : list string) (d d' : doc) : Prop :=
  forall k, ~ In k keys -> lookup k d' = lookup k d.



Definition forbidden_or_not_found : value :=
  message "Forbidden or Contest not found".

Definition invalid_state : value :=
  message "Contest must be ended and winner not declared.".

(** The [$set] written to the contest. *)
Definition winner_update (winnerUser contest : doc) : update :=
  USet [("winner",
         VDoc [("email", bson (lookup "email" winnerUser));
               ("name", bson (lookup "name" winnerUser));
               ("photo", bson (lookup "photo" winnerUser));
               ("prizeMoney", bson (lookup "prizeMoney" contest))]);
        ("status", VStr "Closed")].

Definition is_creator (caller : string) (s : store) : Prop :=
  exists u, find_first [("email", VStr caller)] (users s) = Some u
            /\ lookup "role" u = Some (VStr "Contest Creator").

(** ** A sample deployment

    One creator, one participant and one contest whose deadline is the
    instant [1000]; [Date.parse] is not needed for numeric deadlines. *)

Module Sample.

Definition no_parse : string -> option Z := fun _ => None.

Definition creator : doc :=
  [("email", VStr "creator@x.io"); ("name", VStr "Cleo");
   ("role", VStr "Contest Creator"); ("password", VStr "hunter2")].

Definition participant : doc :=
  [("email", VStr "ann@x.io"); ("name", VStr "Ann")].

Definition contest : doc :=
  [("name", VStr "Logo design"); ("creatorEmail", VStr "creator@x.io");
   ("status", VStr "Pending"); ("participantsCount", num 0);
   ("deadline", num 1000); ("prizeMoney", num 50)].

Definition contest_id : string := "000000000000000000000001".

Definition entry : doc :=
  [("contestId", VStr contest_id); ("participantEmail", VStr "ann@x.io")].

Definition setup : list request :=
  [POST_users creator;
   POST_users participant;
   POST_contests (Some "creator@x.io") contest].

(** The contest exists and nobody has entered it. *)
Definition opened : store := serve no_parse setup empty_store.

(** Ann has entered the contest. *)
Definition entered : store :=
  serve no_parse [POST_participated (Some "ann@x.io") entry] opened.

Definition declare_ann : doc := [("winnerEmail", VStr "ann@x.io")].

(** The contest as stored once Ann has entered. *)
Definition stored_contest : doc :=
  ("_id", VOid 1) :: set_field "participantsCount" (num 1) contest.

(** The declaration of Ann, made after the deadline. *)
Definition declaration : store * outcome :=
  put_contests_declare_winner no_parse 2000 (Some "creator@x.io")
    contest_id declare_ann entered.

(** The same deployment, the creator having registered with another
    password. *)
Definition opened_other_password : store :=
  serve no_parse
    [POST_users (set_field "password" (VStr "correct horse") creator);
     POST_users participant;
     POST_contests (Some "creator@x.io") contest]
    empty_store.

(** A second creator, who owns no contest. *)
Definition rival : doc :=
  [("email", VStr "rival@x.io"); ("name", VStr "Rae");
   ("role", VStr "Contest Creator")].


(** A participant whose profile has an empty name. *)
Definition nameless : doc := [("email", VStr "bob@x.io"); ("name", VStr "")].

Definition bob_entry : doc :=
  [("contestId", VStr contest_id); ("participantEmail", VStr "bob@x.io")].

Definition bob_entered : store :=
  serve no_parse
    [POST_users nameless; POST_participated (Some "bob@x.io") bob_entry]
    opened.

Definition bob_work : doc :=
  [("contestId", VStr contest_id); ("participantEmail", VStr "bob@x.io");
   ("task", VStr "https://example.org/logo.png")].

(** A contest created without a deadline. *)
Definition undated : doc :=
  [("name", VStr "Open call"); ("creatorEmail", VStr "creator@x.io");
   ("status", VStr "Confirmed"); ("prizeMoney", num 10)].

Definition undated_id : string := "000000000000000000000002".

Definition with_undated : store :=
  serve no_parse [POST_contests (Some "creator@x.io") undated] entered.

End Sample.


(** ** Predicates and samples for the rest of the server *)

Fixpoint no_space (t : string) : bool :=
  match t with
  | EmptyString => true
  | String c t' => negb (Ascii.eqb c " ") && no_space t'
  end.

(** What follows the token in an Authorization header: nothing, or a
    space and anything. *)
Definition ends_word (rest : string) : bool :=
  match rest with
  | EmptyString => true
  | String c _ => Ascii.eqb c " "
  end.

Definition two96 : N := (16 ^ 24)%N.

(** The user record found for [email] carries the role [role]. *)
Definition has_role (role email : string) (s : store) : Prop :=
  exists u, find_first [("email", VStr email)] (users s) = Some u
            /\ lookup "role" u = Some (VStr role).

(** The fields that [POST /users] sets itself. *)
Definition registration_fields : list string :=
  ["role"; "wins"; "participatedCount"; "winPercentage"; "bio"; "address"].

(** A contest that [PUT] and [DELETE /contests/:id] let [caller] touch
    under the identifier [n]. *)
Definition editable_by (caller : string) (n : N) (c : doc) : Prop :=
  lookup "_id" c = Some (VOid n)
  /\ lookup "creatorEmail" c = Some (VStr caller)
  /\ lookup "status" c = Some (VStr "Pending").

(** The items of a reply, when it is a listing. *)
Definition listed (r : reply) : list doc :=
  match r with
  | Listing _ items => items
  | _ => []
  end.

(** [a] has at least as many wins as [b], both being numbers. *)
Definition wins_ge (a b : doc) : Prop :=
  exists wa wb,
    lookup "wins" a = Some (VNum wa) /\ lookup "wins" b = Some (VNum wb)
    /\ wb <= wa.

(** [a] does not come after [b] in the descending order of
    [participantsCount]. *)
Definition count_ge (a b : doc) : Prop :=
  bson_compare (bson (lookup "participantsCount" a))
               (bson (lookup "participantsCount" b)) <> Lt.

Definition leaderboard_fields : list string :=
  ["name"; "email"; "photo"; "wins"; "_id"].

(** The update of the contest counter, on the collection. *)
Definition count_participant (oid : option value) (cs : list doc)
  : (list doc * option (doc * doc)) + error :=
  match oid with
  | Some id => update_first [("_id", id)] (UInc "participantsCount" 1) cs
  | None => inl (cs, None)
  end.

Module Sample2.

Definition admin : doc :=
  [("email", VStr "root@x.io"); ("name", VStr "Rho"); ("role", VStr "Admin")].

(** The sample deployment with an Admin, after the declaration of Ann. *)
Definition closed : store :=
  serve Sample.no_parse [POST_users admin] (fst Sample.declaration).

(** The contest as stored after the declaration. *)
Definition closed_contest : doc :=
  set_fields
    [("winner",
      VDoc [("email", VStr "ann@x.io"); ("name", VStr "Ann");
            ("photo", VNull); ("prizeMoney", num 50)]);
     ("status", VStr "Closed")]
    Sample.stored_contest.

(** An entry whose contest identifier does not parse. *)
Definition bad_entry : doc :=
  [("contestId", VStr "not-an-id"); ("participantEmail", VStr "ann@x.io")].

(** An entry whose contest identifier is written in upper case. *)
Definition upper_id : string := "00000000000000000000000A".

(** The record of Ann once she has entered the contest. *)
Definition ann_record : doc :=
  Eval vm_compute in
    match find_first [("email", VStr "ann@x.io")] (users Sample.entered) with
    | Some u => u
    | None => []
    end.

(** A busy afternoon: Ann edits her profile and enters the contest again,
    the creator declares her the winner and deletes the contest. *)
Definition busy : list request :=
  [PUT_users_email (Some "ann@x.io") "ann@x.io"
     [("name", VStr "Ann B."); ("role", VStr "Admin")];
   POST_participated (Some "ann@x.io") Sample.entry;
   PUT_contests_declare_winner 2000 (Some "creator@x.io") Sample.contest_id
     Sample.declare_ann;
   DELETE_contests_id (Some "creator@x.io") Sample.contest_id].

(** Bob has handed in his work, and a second creator has registered. *)
Definition submitted : store :=
  serve Sample.no_parse
    [POST_users Sample.rival;
     POST_submissions (Some "bob@x.io") Sample.bob_work]
    Sample.bob_entered.

(** How a number is printed does not matter to the samples. *)
Definition print_none : Q -> string := fun _ => EmptyString.

End Sample2.

(** The identifiers of the stored contests fit in twelve bytes. *)
Definition ids_in_range (cs : list doc) : Prop :=
  Forall (fun c => (oid_of c < two96)%N) cs.

(** The three fields that the listing of participations adds. *)
Definition detail_fields : list string := ["contestName"; "deadline"; "image"].

(** An item of the listing of participations, against the entry [p] it
    was made from: the entry itself outside the three added fields; the
    contest's [name], [deadline] and [image] when [contestId] is the
    printed identifier of a contest; nothing when [contestId] is not
    written in lower case. *)
Definition joined_with (cs : list doc) (p item : doc) : Prop :=
  same_outside detail_fields p item
  /\ (forall n,
        (n < two96)%N ->
        lookup "contestId" p = Some (VStr (ObjectId.toString n)) ->
        let contest := find_first [("_id", VOid n)] cs in
        lookup "contestName" item = field_of contest "name"
        /\ lookup "deadline" item = field_of contest "deadline"
        /\ lookup "image" item = field_of contest "image")
  /\ (forall cid,
        lookup "contestId" p = Some (VStr cid) ->
        Router.lowercase cid <> cid ->
        lookup "contestName" item = None
        /\ lookup "deadline" item = None
        /\ lookup "image" item = None).

(** The submission [sub] names, as its [contestId], the printed
    identifier of a stored contest created by [email]. *)
Definition submitted_to (Number_toString : Q -> string) (email : string)
    (s : store) (sub : doc) : Prop :=
  exists c cid,
    In c (contests s)
    /\ lookup "creatorEmail" c = Some (VStr email)
    /\ id_toString Number_toString (lookup "_id" c) = inl cid
    /\ lookup "contestId" sub = Some (VStr cid).

(** [l'] is [l] with elements added at the end. *)
Definition extends {A : Type} (l l' : list A) : Prop :=
  exists added, l' = l ++ added.

(** The fields of a user record that the routes rewrite after
    registration. *)
Definition mutable_fields : list string :=
  ["name"; "photo"; "address"; "wins"; "participatedCount"; "winPercentage"].

(** The numeric field [k] has not gone down from [d] to [d']. *)
Definition stat_le (k : string) (d d' : doc) : Prop :=
  exists q q',
    lookup k d = Some (VNum q) /\ lookup k d' = Some (VNum q') /\ q <= q'.

(** How a user record may differ after requests were served: only in
    its mutable fields, and with counters that have not gone down. *)
Definition evolves (d d' : doc) : Prop :=
  same_outside mutable_fields d d'
  /\ (stats_numeric d ->
      stat_le "wins" d d' /\ stat_le "participatedCount" d d').

(** The user records stay in place and evolve; at most new records are
    added at the end. *)
Definition users_kept (us us' : list doc) : Prop :=
  exists kept added, us' = kept ++ added /\ Forall2 evolves us kept.


(** * Properties *)

(** ** Documents *)

Lemma lookup_set_field_same (k : string) (v : value) (d : doc) :
  lookup k (set_field k v d) = Some v.
Proof.
  induction d as [|[k' v'] d IH]; simpl.
  - now rewrite String.eqb_refl.
  - destruct (String.eqb k k') eqn:E; simpl.
    + now rewrite String.eqb_refl.
    + now rewrite E.
Qed.

Lemma lookup_set_field_other (k k' : string) (v : value) (d : doc) :
  k <> k' -> lookup k (set_field k' v d) = lookup k d.
Proof.
  intros Hne. induction d as [|[k0 v0] d IH]; simpl.
  - apply String.eqb_neq in Hne. now rewrite Hne.
  - destruct (String.eqb k' k0) eqn:E; simpl.
    + apply String.eqb_eq in E. subst k0.
      apply String.eqb_neq in Hne. now rewrite Hne.
    + now rewrite IH.
Qed.

Lemma lookup_remove_field_other (k k' : string) (d : doc) :
  k <> k' -> lookup k (remove_field k' d) = lookup k d.
Proof.
  intros Hne. induction d as [|[k0 v0] d IH]; simpl; [reflexivity|].
  destruct (String.eqb k' k0) eqn:E; simpl.
  - apply String.eqb_eq in E. subst k0.
    apply String.eqb_neq in Hne. now rewrite Hne.
  - now rewrite IH.
Qed.

Lemma lookup_remove_field_same (k : string) (d : doc) :
  lookup k (remove_field k d) = None.
Proof.
  induction d as [|[k0 v0] d IH]; simpl; [reflexivity|].
  destruct (String.eqb k k0) eqn:E; simpl; [assumption|].
  now rewrite E.
Qed.

Lemma lookup_set_fields_other (k : string) (kvs d : doc) :
  ~ In k (map fst kvs) -> lookup k (set_fields kvs d) = lookup k d.
Proof.
  unfold set_fields. revert d.
  induction kvs as [|[k' v'] kvs IH]; intros d Hnin; simpl; [reflexivity|].
  rewrite IH.
  - apply lookup_set_field_other. intros ->. apply Hnin. now left.
  - intros Hin. apply Hnin. now right.
Qed.

(** The last write to a key is the one that is read back. *)
Lemma lookup_set_fields_last (k : string) (v : value) (pre post d : doc) :
  ~ In k (map fst post) ->
  lookup k (set_fields (pre ++ (k, v) :: post) d) = Some v.
Proof.
  intros Hnin. unfold set_fields. rewrite fold_left_app. simpl.
  fold (set_fields post
          (set_field k v
             (fold_left (fun acc kv => set_field (fst kv) (snd kv) acc) pre d))).
  rewrite lookup_set_fields_other by assumption.
  apply lookup_set_field_same.
Qed.

(** ** Equality of values *)

Lemma value_eqb_refl (v : value) : value_eqb v v = true.
Proof.
  induction v using value_nested_ind; simpl.
  - reflexivity.
  - apply Bool.eqb_reflx.
  - apply Qeq_bool_iff. reflexivity.
  - apply String.eqb_refl.
  - apply N.eqb_refl.
  - induction H as [|[k v] fs Hv _ IH]; [reflexivity|].
    simpl in Hv. now rewrite String.eqb_refl, Hv, IH.
Qed.

Lemma value_eqb_str (v : value) (s : string) :
  value_eqb v (VStr s) = true -> v = VStr s.
Proof.
  destruct v; simpl; try discriminate.
  intros H. apply String.eqb_eq in H. now subst.
Qed.

(** ** Collections *)

Lemma find_first_some (f : filter) (c : list doc) (d : doc) :
  find_first f c = Some d -> In d c /\ matches f d = true.
Proof. apply find_some. Qed.

Lemma find_first_none (f : filter) (c : list doc) :
  find_first f c = None -> forall d, In d c -> matches f d = false.
Proof. apply find_none. Qed.

Lemma find_first_exists (f : filter) (c : list doc) (d : doc) :
  In d c -> matches f d = true -> exists d', find_first f c = Some d'.
Proof.
  intros Hin Hm. destruct (find_first f c) as [d'|] eqn:E.
  - now exists d'.
  - rewrite (find_first_none _ _ E d Hin) in Hm. discriminate.
Qed.

Lemma matches_single (k : string) (q : value) (d : doc) :
  matches [(k, q)] d = match_field d k q.
Proof. unfold matches. simpl. apply andb_true_r. Qed.

(** A filter only reads the fields it names. *)
Lemma matches_ext (f : filter) (d d' : doc) :
  (forall k, In k (map fst f) -> lookup k d' = lookup k d) ->
  matches f d' = matches f d.
Proof.
  unfold matches. induction f as [|[k q] f IH]; intros H; simpl; [reflexivity|].
  unfold match_field at 1 3. simpl.
  rewrite (H k) by now left.
  f_equal. apply IH. intros k' Hk'. apply H. now right.
Qed.

Lemma matches_remove_field (f : filter) (p : string) (d : doc) :
  ~ In p (map fst f) -> matches f (remove_field p d) = matches f d.
Proof.
  intros Hnin. apply matches_ext. intros k Hk.
  apply lookup_remove_field_other. intros ->. contradiction.
Qed.

Lemma find_first_map_remove (f : filter) (p : string) (c : list doc) :
  ~ In p (map fst f) ->
  find_first f (map (remove_field p) c)
  = option_map (remove_field p) (find_first f c).
Proof.
  intros Hnin. unfold find_first.
  induction c as [|d c IH]; simpl; [reflexivity|].
  rewrite matches_remove_field by assumption.
  destruct (matches f d); [reflexivity|assumption].
Qed.

Lemma update_first_ok (f : filter) (u : update) (c c' : list doc)
    (r : option (doc * doc)) :
  update_first f u c = inl (c', r) -> updated_first f u c c' r.
Proof.
  revert c' r. induction c as [|d c IH]; intros c' r H; simpl in H.
  - injection H as <- <-. now constructor.
  - destruct (matches f d) eqn:Hm.
    + destruct (apply_update u d) as [d'|e] eqn:Hu; [|discriminate].
      injection H as <- <-.
      apply (updated_some f u [] c d); [intros x []|assumption|assumption].
    + destruct (update_first f u c) as [[c'' r'']|e] eqn:Hrec; [|discriminate].
      injection H as <- <-.
      specialize (IH _ _ eq_refl).
      inversion IH as [c0 Hnone|pre post d0 d0' Hpre Hm0 Hu0]; subst.
      * constructor. unfold find_first in *. simpl. now rewrite Hm.
      * apply (updated_some f u (d :: pre) post d0); [|assumption|assumption].
        intros x [<-|Hx]; [assumption|auto].
Qed.

(** Reading with a filter [g] after an update that does not change what
    [g] looks at: the same document is found, in its updated form if it
    was the one rewritten. *)
Lemma find_first_after_update (f g : filter) (u : update) (c c' : list doc)
    (r : option (doc * doc)) :
  updated_first f u c c' r ->
  (forall d d', apply_update u d = inl d' -> matches g d' = matches g d) ->
  match find_first g c with
  | None => find_first g c' = None
  | Some x =>
      find_first g c' = Some x
      \/ exists x', r = Some (x, x') /\ find_first g c' = Some x'
  end.
Proof.
  intros H Hpres. inversion H as [|pre post d d' Hpre Hm Hu]; subst.
  - destruct (find_first g c'); auto.
  - unfold find_first. clear H Hpre.
    induction pre as [|x pre IH]; simpl.
    + rewrite (Hpres _ _ Hu).
      destruct (matches g d) eqn:Hg.
      * right. now exists d'.
      * destruct (find (matches g) post); auto.
    + destruct (matches g x); [now left|apply IH].
Qed.

Lemma find_first_skip (f : filter) (pre l : list doc) :
  (forall x, In x pre -> matches f x = false) ->
  find_first f (pre ++ l) = find_first f l.
Proof.
  unfold find_first. induction pre as [|x pre IH]; intros H; simpl;
    [reflexivity|].
  rewrite (H x) by now left. apply IH. intros y Hy. apply H. now right.
Qed.

Lemma find_first_head (f : filter) (d : doc) (l : list doc) :
  matches f d = true -> find_first f (d :: l) = Some d.
Proof. intros H. unfold find_first. simpl. now rewrite H. Qed.

(** The document found by the filter of an update is the one the update
    rewrites, and it is found again afterwards if it still matches. *)
Lemma updated_first_found (f : filter) (u : update) (c c' : list doc)
    (r : option (doc * doc)) (d : doc) :
  updated_first f u c c' r ->
  find_first f c = Some d ->
  exists d',
    r = Some (d, d') /\ apply_update u d = inl d'
    /\ (matches f d' = true -> find_first f c' = Some d').
Proof.
  intros H Hfind. inversion H as [c0 Hnone|pre post d0 d0' Hpre Hm Hu]; subst.
  - congruence.
  - rewrite find_first_skip in Hfind by assumption.
    rewrite find_first_head in Hfind by assumption.
    injection Hfind as ->. exists d0'. repeat split; [assumption|].
    intros Hm'. rewrite find_first_skip by assumption.
    now apply find_first_head.
Qed.

Lemma update_first_fails (f : filter) (u : update) (c : list doc) (d : doc)
    (e : error) :
  find_first f c = Some d -> apply_update u d = inr e ->
  update_first f u c = inr e.
Proof.
  unfold find_first. induction c as [|x c IH]; simpl; [discriminate|].
  destruct (matches f x).
  - intros H Hu. injection H as ->. now rewrite Hu.
  - intros H Hu. now rewrite (IH H Hu).
Qed.

Lemma update_first_set_total (f : filter) (kvs : doc) (c : list doc) :
  lookup "_id" kvs = None ->
  exists c' r, update_first f (USet kvs) c = inl (c', r).
Proof.
  intros Hid. induction c as [|x c [c' [r IH]]]; cbn [update_first]; [eauto|].
  destruct (matches f x).
  - cbn [apply_update]. rewrite Hid. eauto.
  - rewrite IH. eauto.
Qed.

(** The generated key collides with no stored key. *)
Lemma fresh_oid_above (c : list doc) (d : doc) :
  In d c -> (oid_of d < fresh_oid c)%N.
Proof.
  unfold fresh_oid. induction c as [|x c IH]; intros Hin; [destruct Hin|].
  simpl. destruct Hin as [->|Hin]; [lia|]. specialize (IH Hin). lia.
Qed.

Lemma fresh_oid_unused (c : list doc) :
  existsb (has_id (VOid (fresh_oid c))) c = false.
Proof.
  destruct (existsb (has_id (VOid (fresh_oid c))) c) eqn:E; [|reflexivity].
  apply existsb_exists in E. destruct E as [d [Hin Hid]].
  pose proof (fresh_oid_above c d Hin) as Hlt.
  unfold has_id in Hid. unfold oid_of in Hlt.
  destruct (lookup "_id" d) as [[| | | |n|]|]; simpl in Hid; try discriminate.
  apply N.eqb_eq in Hid. lia.
Qed.

Lemma insert_doc_ok (d : doc) (c c' : list doc) (id : value) :
  insert_doc d c = inl (c', id) ->
  c' = c ++ [("_id", id) :: remove_field "_id" d].
Proof.
  unfold insert_doc.
  destruct (existsb _ c); [discriminate|]. intros H. now injection H as <- <-.
Qed.

Lemma insert_doc_error (d : doc) (c : list doc) (e : error) :
  insert_doc d c = inr e -> e = DuplicateKey.
Proof.
  unfold insert_doc.
  destruct (existsb _ c); [|discriminate]. intros H. now injection H as <-.
Qed.

Lemma lookup_inserted (k : string) (id : value) (d : doc) :
  k <> "_id" ->
  lookup k (("_id", id) :: remove_field "_id" d) = lookup k d.
Proof.
  intros Hne. simpl. apply String.eqb_neq in Hne. rewrite Hne.
  apply lookup_remove_field_other. now apply String.eqb_neq.
Qed.

Lemma set_update_frame (kvs d d' : doc) :
  apply_update (USet kvs) d = inl d' -> same_outside (map fst kvs) d d'.
Proof.
  cbn [apply_update]. intros H.
  assert (Hd : d' = set_fields kvs d).
  { destruct (lookup "_id" kvs); [|now injection H].
    destruct (value_eqb _ _); [now injection H|discriminate]. }
  subst d'. intros k Hk. now apply lookup_set_fields_other.
Qed.

(** ** Registration *)



Lemma lookup_newUser_other (k : string) (user : doc) :
  ~ In k ["role"; "wins"; "participatedCount"; "winPercentage"; "bio";
          "address"] ->
  lookup k (newUser user) = lookup k user.
Proof. intros H. unfold newUser. now apply lookup_set_fields_other. Qed.

(** [POST /users] unfolded into its three ways out. *)
Lemma post_users_cases (user : doc) (s : store) :
  post_users user s
  = match find_first [("email", bson (lookup "email" user))] (users s) with
    | Some _ => (s, Sent 200 already_exists)
    | None =>
        match insert_doc (newUser user) (users s) with
        | inl (l, id) =>
            (coll_set usersCollection l s, Sent 201 (InsertOneResult id))
        | inr e => (s, Thrown e)
        end
    end.
Proof.
  unfold post_users, await, findOne, insertOne, send.
  cbn [coll_get]. destruct (find_first _ (users s)); [reflexivity|].
  destruct (insert_doc _ (users s)) as [[l id]|e]; reflexivity.
Qed.

(** Registering the same payload twice in a row: the second call changes
    nothing, whatever the first one did. *)
Lemma post_users_twice (user : doc) (s : store) :
  let s1 := fst (post_users user s) in
  post_users user s1 = (s1, Sent 200 already_exists)
  \/ post_users user s = (s, Thrown DuplicateKey).
Proof.
  cbn zeta. rewrite !post_users_cases.
  set (f := [("email", bson (lookup "email" user))]).
  destruct (find_first f (users s)) as [u|] eqn:Hfind.
  - left. cbn [fst]. now rewrite Hfind.
  - destruct (insert_doc _ (users s)) as [[l id]|e] eqn:Hins.
    + left. cbn [fst coll_set users]. apply insert_doc_ok in Hins. subst l.
      match goal with |- context [find_first f ?l] =>
        destruct (find_first f l) as [x|] eqn:Hx end; [reflexivity|].
      exfalso.
      eapply find_first_none in Hx;
        [|apply in_or_app; right; left; reflexivity].
      revert Hx. unfold f. rewrite matches_single. unfold match_field.
      rewrite lookup_inserted by discriminate.
      rewrite lookup_newUser_other
        by (simpl; intros [H|[H|[H|[H|[H|[H|[]]]]]]]; discriminate).
      destruct (lookup "email" user); simpl;
        [rewrite value_eqb_refl|]; discriminate.
    + right. apply insert_doc_error in Hins. now subst e.
Qed.

(** ** Reading one's profile *)

(** C10. The response of [GET /users/:email] does not depend on stored
    passwords: two stores whose user records agree once the [password]
    field is removed give the same response, and a document sent back
    has no [password] field. *)
Theorem get_users_email_hides_password
    (token : option string) (email : string) (s1 s2 : store) :
  map (remove_field "password") (users s1)
  = map (remove_field "password") (users s2) ->
  snd (get_users_email token email s1) = snd (get_users_email token email s2)
  /\ (forall status fields,
        snd (get_users_email token email s1) = Sent status (VDoc fields) ->
        lookup "password" fields = None).
Proof.
  intros Hsame.
  assert (Hnin : ~ In "password" (map fst [("email", VStr email)])).
  { simpl. intros [H|[]]. discriminate. }
  unfold get_users_email, verifyToken.
  destruct token as [decoded|]; simpl.
  - destruct (String.eqb email decoded); simpl.
    + unfold await, findOne_excluding. simpl.
      rewrite <- !find_first_map_remove by assumption.
      rewrite Hsame. split; [reflexivity|].
      intros status fields H.
      destruct (find_first _ (map _ (users s2))) as [u|] eqn:Hfind;
        [|discriminate].
      injection H as _ <-.
      apply find_first_some in Hfind. destruct Hfind as [Hin _].
      apply in_map_iff in Hin. destruct Hin as [u0 [<- _]].
      apply lookup_remove_field_same.
    + split; [reflexivity|]. intros status fields H.
      injection H as _ <-. reflexivity.
  - split; [reflexivity|]. intros status fields H.
    injection H as _ <-. reflexivity.
Qed.

Lemma get_users_email_hides_password_witness :
  snd (get_users_email (Some "creator@x.io") "creator@x.io" Sample.opened)
  = snd (get_users_email (Some "creator@x.io") "creator@x.io"
           Sample.opened_other_password)
  /\ (forall status fields,
        snd (get_users_email (Some "creator@x.io") "creator@x.io"
               Sample.opened) = Sent status (VDoc fields) ->
        lookup "password" fields = None).
Proof.
  apply (get_users_email_hides_password (Some "creator@x.io") "creator@x.io"
           Sample.opened Sample.opened_other_password).
  reflexivity.
Defined.

(** The two sample stores do differ, in the stored password only. *)
Example sample_passwords_differ :
  users Sample.opened <> users Sample.opened_other_password.
Proof. discriminate. Qed.

(** ** Profile update and the fields a user may write *)

(** An update rewrites at most one document; whatever relation holds
    between a document and its updated form holds throughout. *)
Lemma updated_first_Forall2 (R : doc -> doc -> Prop) (f : filter) (u : update)
    (c c' : list doc) (r : option (doc * doc)) :
  (forall d, R d d) ->
  (forall d d', apply_update u d = inl d' -> R d d') ->
  updated_first f u c c' r -> Forall2 R c c'.
Proof.
  intros Hrefl Hupd H.
  assert (Hid : forall l, Forall2 R l l)
    by (induction l; constructor; auto).
  inversion H as [|pre post d d' Hpre Hm Hu]; subst; [apply Hid|].
  apply Forall2_app; [apply Hid|]. constructor; [now apply Hupd|apply Hid].
Qed.

(** [PUT /users/:email] unfolded. *)
Lemma put_users_email_cases (token : option string) (email : string)
    (updatedUser : doc) (s : store) :
  put_users_email token email updatedUser s
  = match token with
    | None => (s, Sent 401 (message "Unauthorized access"))
    | Some decoded =>
        if negb (String.eqb email decoded)
        then (s, Sent 403 (message "Forbidden access"))
        else
          match update_first [("email", VStr email)]
                  (USet [("name", bson (lookup "name" updatedUser));
                         ("photo", bson (lookup "photo" updatedUser));
                         ("address", bson (lookup "address" updatedUser))])
                  (users s) with
          | inl (l, r) =>
              (coll_set usersCollection l s,
               Sent 200 (UpdateResult (matched r) (modified r)))
          | inr e => (s, Thrown e)
          end
    end.
Proof.
  unfold put_users_email, verifyToken, await, updateOne, send.
  destruct token as [decoded|]; [|reflexivity].
  destruct (negb (String.eqb email decoded)); [reflexivity|].
  cbn [coll_get]. destruct (update_first _ _ (users s)) as [[l r]|e];
    reflexivity.
Qed.

Lemma same_outside_refl (keys : list string) (d : doc) :
  same_outside keys d d.
Proof. now intros k _. Qed.

Lemma Forall2_same_outside_refl (keys : list string) (c : list doc) :
  Forall2 (same_outside keys) c c.
Proof. induction c; constructor; auto using same_outside_refl. Qed.

(** C7 (amended). What a user can write into user records through the
    two user-initiated routes.  A profile update changes nothing but the
    [name], [photo] and [address] of user records and touches no other
    collection.  A registration either leaves the user records as they
    were or appends one record whose [wins], [participatedCount] and
    [winPercentage] are 0 whatever the payload says, and whose [role] is
    the payload's [role] when that is truthy and ['Normal User']
    otherwise. *)
Theorem user_writes_frame (token : option string) (email : string)
    (updatedUser user : doc) (s : store) :
  (let s' := fst (put_users_email token email updatedUser s) in
   Forall2 (same_outside profile_fields) (users s) (users s')
   /\ contests s' = contests s
   /\ participated s' = participated s
   /\ submissions s' = submissions s)
  /\
  (let s' := fst (post_users user s) in
   users s' = users s
   \/ exists u,
        users s' = users s ++ [u]
        /\ lookup "wins" u = Some (num 0)
        /\ lookup "participatedCount" u = Some (num 0)
        /\ lookup "winPercentage" u = Some (num 0)
        /\ lookup "role" u
           = Some (if truthy (lookup "role" user)
                   then bson (lookup "role" user)
                   else VStr "Normal User")).
Proof.
  split; cbn zeta.
  - rewrite put_users_email_cases.
    destruct token as [decoded|];
      [|cbn [fst]; auto using Forall2_same_outside_refl].
    destruct (negb (String.eqb email decoded));
      [cbn [fst]; auto using Forall2_same_outside_refl|].
    destruct (update_first _ _ (users s)) as [[l r]|e] eqn:Hupd;
      [|cbn [fst]; auto using Forall2_same_outside_refl].
    cbn [fst coll_set users contests participated submissions].
    repeat split.
    apply update_first_ok in Hupd.
    apply updated_first_Forall2 with (R := same_outside profile_fields)
      in Hupd; [assumption|apply same_outside_refl|].
    intros d d' Hd. exact (set_update_frame _ _ _ Hd).
  - rewrite post_users_cases.
    destruct (find_first _ (users s)); [now left|].
    destruct (insert_doc _ (users s)) as [[l id]|e] eqn:Hins; [|now left].
    right. apply insert_doc_ok in Hins. subst l.
    eexists. cbn [fst coll_set users]. split; [reflexivity|].
    rewrite !lookup_inserted by discriminate.
    unfold newUser.
    repeat split.
    + apply (lookup_set_fields_last "wins" (num 0) [_]);
        simpl; intros [H|[H|[H|[H|[]]]]]; discriminate.
    + apply (lookup_set_fields_last "participatedCount" (num 0) [_; _]);
        simpl; intros [H|[H|[H|[]]]]; discriminate.
    + apply (lookup_set_fields_last "winPercentage" (num 0) [_; _; _]);
        simpl; intros [H|[H|[]]]; discriminate.
    + apply (lookup_set_fields_last "role" _ []);
        simpl; intros [H|[H|[H|[H|[H|[]]]]]]; discriminate.
Qed.

(** C7, as stated, fails: the registrant chooses the role.  Registering
    with [role: 'Admin'] on the empty database stores an Admin. *)
Lemma registrant_chooses_role :
  exists u,
    users (fst (post_users [("email", VStr "eve@x.io"); ("role", VStr "Admin")]
                  empty_store)) = [u]
    /\ lookup "role" u = Some (VStr "Admin")
    /\ snd (patch_contests_status (Some "eve@x.io") Sample.contest_id
              [("status", VStr "Confirmed")]
              (fst (post_users [("email", VStr "eve@x.io");
                                ("role", VStr "Admin")] Sample.opened)))
       = Sent 200 (UpdateResult true true).
Proof. eexists. repeat split. Qed.

(** ** Contest creation *)

(** C5 (amended).  [POST /contests] by a caller with the Creator role
    stores the payload as it was sent: unless the driver rejects a
    duplicate [_id], the inserted contest has the fields of the payload,
    its [status] and [participantsCount] included (absent if the payload
    has none), and the driver only supplies the primary key.  The handler
    forces no status and initialises no counter. *)
Theorem post_contests_verbatim (caller : string) (newContest : doc)
    (s : store) :
  is_creator caller s ->
  post_contests (Some caller) newContest s = (s, Thrown DuplicateKey)
  \/ exists id stored,
       post_contests (Some caller) newContest s
       = (coll_set contestsCollection (contests s ++ [stored]) s,
          Sent 201 (InsertOneResult id))
       /\ lookup "_id" stored = Some id
       /\ (forall k, k <> "_id" -> lookup k stored = lookup k newContest).
Proof.
  intros [u [Hu Hrole]].
  unfold post_contests, verifyToken, verifyCreator, verifyRole, await,
    findOne, insertOne, send.
  cbn [coll_get]. rewrite Hu, Hrole. cbn [strict_neq_str].
  rewrite String.eqb_refl. cbn [negb].
  destruct (insert_doc newContest (contests s)) as [[l id]|e] eqn:Hins.
  - right. exists id. eexists. apply insert_doc_ok in Hins. subst l.
    split; [reflexivity|]. split; [reflexivity|].
    intros k Hk. now apply lookup_inserted.
  - left. apply insert_doc_error in Hins. now subst e.
Qed.

Lemma post_contests_verbatim_witness :
  post_contests (Some "creator@x.io") Sample.undated Sample.entered
  = (Sample.entered, Thrown DuplicateKey)
  \/ exists id stored,
       post_contests (Some "creator@x.io") Sample.undated Sample.entered
       = (coll_set contestsCollection (contests Sample.entered ++ [stored])
            Sample.entered,
          Sent 201 (InsertOneResult id))
       /\ lookup "_id" stored = Some id
       /\ (forall k, k <> "_id" -> lookup k stored = lookup k Sample.undated).
Proof.
  apply (post_contests_verbatim "creator@x.io" Sample.undated Sample.entered).
  eexists. split; reflexivity.
Defined.

(** C5, as stated, fails: a creator who posts a contest with
    [status: 'Confirmed'] and no [participantsCount] gets exactly that
    stored.  The status is not forced to ['Pending'] and no counter is
    initialised. *)
Lemma post_contests_keeps_payload_status :
  exists stored,
    contests (fst (post_contests (Some "creator@x.io") Sample.undated
                     Sample.entered))
    = contests Sample.entered ++ [stored]
    /\ snd (post_contests (Some "creator@x.io") Sample.undated Sample.entered)
       = Sent 201 (InsertOneResult (VOid 2))
    /\ lookup "status" stored = Some (VStr "Confirmed")
    /\ lookup "participantsCount" stored = None.
Proof. eexists. repeat split. Qed.

(** ** Participation *)

Lemma count_matching_app (f : filter) (c : list doc) (d : doc) :
  count_matching f (c ++ [d])
  = (count_matching f c + if matches f d then 1 else 0)%nat.
Proof.
  unfold count_matching. rewrite filter_app, length_app. simpl.
  now destruct (matches f d).
Qed.

Lemma count_matching_zero (f : filter) (c : list doc) :
  count_matching f c = 0%nat <-> find_first f c = None.
Proof.
  unfold count_matching, find_first.
  induction c as [|d c IH]; simpl; [tauto|].
  destruct (matches f d); simpl; [split; discriminate|assumption].
Qed.

(** [GET /participated/check/:contestId] for one's own address. *)
Lemma get_participated_check_cases (email contestId : string) (s : store) :
  get_participated_check (Some email) contestId (Some email) s
  = (s, Sent 200
          (VDoc [("isRegistered",
                  VBool (negb (Nat.eqb (participations contestId email s) 0)))])).
Proof.
  unfold get_participated_check, verifyToken, await, findOne, send.
  cbn [option_map strict_neq_str bson coll_get].
  rewrite String.eqb_refl. cbn [negb].
  unfold participations.
  destruct (find_first _ (participated s)) eqn:Hfind.
  - destruct (count_matching _ (participated s)) eqn:Hc; [|reflexivity].
    apply count_matching_zero in Hc. congruence.
  - apply count_matching_zero in Hfind. now rewrite Hfind.
Qed.

(** The store after [POST /participated], as far as Participation
    records go: the insert comes first and is unconditional. *)
Lemma post_participated_inserts (caller : string) (info : doc) (s : store) :
  let s' := fst (post_participated (Some caller) info s) in
  (s' = s /\ snd (post_participated (Some caller) info s) = Thrown DuplicateKey)
  \/ exists id,
       participated s'
       = participated s ++ [("_id", id) :: remove_field "_id" info].
Proof.
  cbn zeta.
  unfold post_participated, verifyToken, await, insertOne.
  cbn [coll_get].
  destruct (insert_doc info (participated s)) as [[l id]|e] eqn:Hins.
  - right. exists id. apply insert_doc_ok in Hins. subst l.
    unfold new_ObjectId_of, updateOne_by_id, updateOne, send.
    destruct (lookup "contestId" info) as [[| | |cid| |]|];
      try destruct (ObjectId.of_string cid);
      cbn [coll_get coll_set users contests participated submissions];
      repeat match goal with
        | |- context [update_first ?f ?u ?c] =>
            destruct (update_first f u c) as [[? ?]|?];
            cbn [coll_get coll_set users contests participated submissions fst]
        end; reflexivity.
  - left. apply insert_doc_error in Hins. now subst e.
Qed.

(** C6 (amended).  The existence check is a route of its own,
    [GET /participated/check/:contestId], which reports whether the pair
    has a Participation.  [POST /participated] makes no such check: unless
    the driver rejects a duplicate [_id], it adds exactly one Participation
    for its (contestId, participantEmail) pair, whether or not the pair
    already has one.  Hence a pair checked as unregistered has exactly one
    record afterwards. *)
Theorem post_participated_unconditional (caller contestId email : string)
    (info : doc) (s : store) :
  lookup "contestId" info = Some (VStr contestId) ->
  lookup "participantEmail" info = Some (VStr email) ->
  let s' := fst (post_participated (Some caller) info s) in
  get_participated_check (Some email) contestId (Some email) s
  = (s, Sent 200
          (VDoc [("isRegistered",
                  VBool (negb (Nat.eqb (participations contestId email s) 0)))]))
  /\ ((s' = s
       /\ snd (post_participated (Some caller) info s) = Thrown DuplicateKey)
      \/ participations contestId email s'
         = S (participations contestId email s)).
Proof.
  intros Hcid Hemail. cbn zeta. split; [apply get_participated_check_cases|].
  destruct (post_participated_inserts caller info s) as [H|[id H]];
    [now left|right].
  unfold participations. rewrite H, count_matching_app.
  unfold matches. cbn [forallb fst snd]. unfold match_field.
  rewrite !lookup_inserted by discriminate.
  rewrite Hcid, Hemail. simpl. rewrite !String.eqb_refl. simpl. lia.
Qed.

Lemma post_participated_unconditional_witness :
  get_participated_check (Some "ann@x.io") Sample.contest_id (Some "ann@x.io")
    Sample.entered
  = (Sample.entered,
     Sent 200
       (VDoc [("isRegistered",
               VBool (negb (Nat.eqb
                 (participations Sample.contest_id "ann@x.io" Sample.entered)
                 0)))]))
  /\ ((fst (post_participated (Some "ann@x.io") Sample.entry Sample.entered)
       = Sample.entered
       /\ snd (post_participated (Some "ann@x.io") Sample.entry Sample.entered)
          = Thrown DuplicateKey)
      \/ participations Sample.contest_id "ann@x.io"
           (fst (post_participated (Some "ann@x.io") Sample.entry
                   Sample.entered))
         = S (participations Sample.contest_id "ann@x.io" Sample.entered)).
Proof.
  apply (post_participated_unconditional "ann@x.io" Sample.contest_id
           "ann@x.io" Sample.entry Sample.entered); reflexivity.
Defined.

(** C6, as stated, fails: entering twice stores two Participation
    records for the same pair. *)
Lemma participation_recorded_twice :
  participations Sample.contest_id "ann@x.io" Sample.entered = 1%nat
  /\ participations Sample.contest_id "ann@x.io"
       (fst (post_participated (Some "ann@x.io") Sample.entry Sample.entered))
     = 2%nat.
Proof. split; reflexivity. Qed.

(** ** Submissions *)



(** ** The statistics of user records *)

Lemma inc_update_frame (k : string) (a : Q) (d d' : doc) :
  apply_update (UInc k a) d = inl d' -> same_outside [k] d d'.
Proof.
  cbn [apply_update]. intros H k' Hk'.
  assert (Hne : k' <> k) by (intros ->; apply Hk'; now left).
  destruct (lookup k d) as [[| |q| | |]|]; try discriminate;
    injection H as <-; now apply lookup_set_field_other.
Qed.


(** The pipeline writes [wins], then [winPercentage]. *)
Lemma winner_stats_ok (d d' : doc) :
  apply_update winner_stats d = inl d' ->
  exists v v',
    eval_expr d (EAdd (EField "wins") (EConst 1)) = inl v
    /\ d' = set_field "winPercentage" v' (set_field "wins" v d).
Proof.
  unfold winner_stats. cbn [apply_update eval_pipeline eval_stage].
  destruct (eval_expr d (EAdd _ _)) as [v|e]; [|discriminate].
  destruct (eval_expr _ (EMultiply _ _)) as [v'|e]; [|discriminate].
  intros H. injection H as <-. eauto.
Qed.

Lemma winner_stats_frame (d d' : doc) :
  apply_update winner_stats d = inl d' ->
  same_outside ["wins"; "winPercentage"] d d'.
Proof.
  intros H. apply winner_stats_ok in H. destruct H as [v [v' [_ ->]]].
  intros k Hk. rewrite !lookup_set_field_other; [reflexivity| |];
    intros ->; apply Hk; simpl; auto.
Qed.

(** On a record whose [wins] is a number, the stored [wins] becomes that
    number plus one. *)
Lemma winner_stats_wins (d d' : doc) (w : Q) :
  apply_update winner_stats d = inl d' ->
  lookup "wins" d = Some (VNum w) ->
  lookup "wins" d' = Some (VNum (Qred (w + 1))).
Proof.
  intros H Hw. apply winner_stats_ok in H. destruct H as [v [v' [Hv ->]]].
  rewrite lookup_set_field_other by discriminate.
  rewrite lookup_set_field_same.
  cbn [eval_expr] in Hv. rewrite Hw in Hv. cbn in Hv. now injection Hv as <-.
Qed.

(** With a numeric [wins] and a zero [participatedCount] the pipeline is
    rejected: [$divide] refuses a zero divisor. *)
Lemma winner_stats_divide_by_zero (d : doc) (w p : Q) :
  lookup "wins" d = Some (VNum w) ->
  lookup "participatedCount" d = Some (VNum p) ->
  p == 0 ->
  apply_update winner_stats d = inr DivideByZero.
Proof.
  intros Hw Hp Hz. unfold winner_stats.
  cbn [apply_update eval_pipeline eval_stage eval_expr].
  rewrite Hw. cbn [bson nullish arith2].
  rewrite lookup_set_field_same.
  rewrite lookup_set_field_other by discriminate.
  rewrite Hp. cbn [bson divide2].
  apply Qeq_bool_iff in Hz. now rewrite Hz.
Qed.





(** ** An invariant of the API: statistics stay numeric *)

Ltac unfold_handler :=
  unfold post_users, get_users_email, put_users_email, post_contests,
    put_contests_id, delete_contests_id, patch_contests_status,
    get_participated_check, post_participated, post_submissions,
    put_contests_declare_winner, verifyToken, verifyAdmin, verifyCreator,
    verifyRole, await, findOne, findOne_excluding, insertOne, updateOne_by_id,
    updateOne, deleteOne, new_ObjectId, new_ObjectId_of, send.

Ltac simpl_store :=
  cbn [fst snd coll_get coll_set users contests participated submissions] in *.

Ltac split_handler :=
  repeat (simpl_store;
          match goal with
          | |- context [match ?x with _ => _ end] =>
              lazymatch x with
              | context [match _ with _ => _ end] => fail
              | _ => destruct x eqn:?
              end
          end);
  simpl_store.


Section Invariant.

Variable Date_parse : string -> option Z.




End Invariant.

(** ** Winner declaration *)

Section DeclareWinner.

Variable Date_parse : string -> option Z.

(** The handler, for a caller who passes [verifyCreator], unfolded into
    its ways out. *)
Lemma declare_winner_cases (now : Z) (caller id : string) (body : doc)
    (s : store) :
  is_creator caller s ->
  put_contests_declare_winner Date_parse now (Some caller) id body s
  = match ObjectId.of_string id with
    | None => (s, Thrown BSONError)
    | Some n =>
        match find_first [("_id", VOid n)] (contests s) with
        | None => (s, Sent 403 forbidden_or_not_found)
        | Some contest =>
            if strict_neq_str (lookup "creatorEmail" contest) caller
            then (s, Sent 403 forbidden_or_not_found)
            else if not_eligible Date_parse now contest
            then (s, Sent 400 invalid_state)
            else
              let who := [("email", bson (lookup "winnerEmail" body))] in
              match find_first who (users s) with
              | None => (s, Sent 404 (message "Winner user not found"))
              | Some winnerUser =>
                  match update_first [("_id", VOid n)]
                          (winner_update winnerUser contest) (contests s) with
                  | inr e => (s, Thrown e)
                  | inl (cs, r) =>
                      let s1 := coll_set contestsCollection cs s in
                      match update_first who winner_stats (users s) with
                      | inr e => (s1, Thrown e)
                      | inl (us, _) =>
                          (coll_set usersCollection us s1,
                           Sent 200 (UpdateResult (matched r) (modified r)))
                      end
                  end
              end
        end
    end.
Proof.
  intros [u [Hu Hrole]].
  unfold put_contests_declare_winner, verifyToken, verifyCreator, verifyRole,
    await, findOne, updateOne, new_ObjectId, send.
  cbn [coll_get]. rewrite Hu, Hrole. cbn [strict_neq_str].
  rewrite String.eqb_refl. cbn [negb]. clear u Hu Hrole.
  destruct (ObjectId.of_string id) as [n|]; [|reflexivity].
  destruct (find_first _ (contests s)) as [contest|]; [|reflexivity].
  destruct (strict_neq_str _ caller); [reflexivity|].
  destruct (not_eligible _ now contest); [reflexivity|].
  cbn zeta.
  destruct (find_first _ (users s)) as [winnerUser|]; [|reflexivity].
  fold (winner_update winnerUser contest).
  destruct (update_first _ (winner_update winnerUser contest) (contests s))
    as [[cs r]|e]; [|reflexivity].
  cbn [coll_get coll_set users].
  destruct (update_first _ winner_stats (users s)) as [[us r']|e];
    reflexivity.
Qed.

Lemma strict_neq_str_false (a : jsval) (s : string) :
  strict_neq_str a s = false <-> a = Some (VStr s).
Proof.
  unfold strict_neq_str. split.
  - destruct a as [[| | |s'| |]|]; try discriminate.
    intros H. apply negb_false_iff, String.eqb_eq in H. now subst.
  - intros ->. now rewrite String.eqb_refl.
Qed.


(** Only a caller who passes both middlewares gets past them. *)
Lemma declare_winner_caller (now : Z) (token : option string) (id : string)
    (body : doc) (s s' : store) (status : nat) (result : value) :
  put_contests_declare_winner Date_parse now token id body s
  = (s', Sent status result) ->
  status <> 401%nat -> status <> 403%nat ->
  exists caller, token = Some caller /\ is_creator caller s.
Proof.
  unfold put_contests_declare_winner, verifyToken.
  destruct token as [caller|].
  - unfold verifyCreator, verifyRole, await at 1, findOne at 1, send.
    cbn [coll_get].
    destruct (find_first [("email", VStr caller)] (users s)) as [u|] eqn:Hu.
    + destruct (strict_neq_str (lookup "role" u) "Contest Creator") eqn:Hrole.
      * intros H. injection H as _ <- _. congruence.
      * intros _ _ _. exists caller. split; [reflexivity|].
        exists u. split; [assumption|]. now apply strict_neq_str_false.
    + cbn [strict_neq_str]. intros H. injection H as _ <- _. congruence.
  - unfold send. intros H. injection H as _ <- _. congruence.
Qed.

(** What a successful declaration has gone through. *)
Lemma declare_winner_success (now : Z) (token : option string) (id : string)
    (body : doc) (s s' : store) (result : value) :
  put_contests_declare_winner Date_parse now token id body s
  = (s', Sent 200 result) ->
  exists caller n contest winnerUser cs us r r',
    token = Some caller /\ is_creator caller s
    /\ ObjectId.of_string id = Some n
    /\ find_first [("_id", VOid n)] (contests s) = Some contest
    /\ lookup "creatorEmail" contest = Some (VStr caller)
    /\ not_eligible Date_parse now contest = false
    /\ find_first [("email", bson (lookup "winnerEmail" body))] (users s)
       = Some winnerUser
    /\ updated_first [("_id", VOid n)] (winner_update winnerUser contest)
         (contests s) cs r
    /\ updated_first [("email", bson (lookup "winnerEmail" body))]
         winner_stats (users s) us r'
    /\ s' = coll_set usersCollection us (coll_set contestsCollection cs s).
Proof.
  intros H.
  destruct (declare_winner_caller _ _ _ _ _ _ _ _ H) as [caller [-> Hc]];
    try discriminate.
  rewrite declare_winner_cases in H by assumption.
  destruct (ObjectId.of_string id) as [n|]; [|discriminate].
  destruct (find_first [("_id", VOid n)] (contests s)) as [contest|] eqn:Hf;
    [|discriminate].
  destruct (strict_neq_str _ caller) eqn:Howner; [discriminate|].
  destruct (not_eligible _ now contest) eqn:Hgate; [discriminate|].
  cbn zeta in H.
  destruct (find_first _ (users s)) as [winnerUser|] eqn:Hw; [|discriminate].
  destruct (update_first _ (winner_update _ _) (contests s)) as [[cs r]|e]
    eqn:Hcs; [|discriminate].
  destruct (update_first _ winner_stats (users s)) as [[us r']|e] eqn:Hus;
    [|discriminate].
  injection H as <- _.
  exists caller, n, contest, winnerUser, cs, us, r, r'.
  repeat split; try assumption; try reflexivity.
  - now apply strict_neq_str_false.
  - now apply update_first_ok.
  - now apply update_first_ok.
Qed.

(** The first half of a declaration is written before the second is
    attempted: when the winner's [participatedCount] is zero, the contest
    is closed, the statistics pipeline is rejected, the user records stay
    as they were and the handler throws. *)
Lemma declare_winner_zero_participation (now : Z) (caller id : string) (n : N)
    (body : doc) (s : store) (contest winnerUser : doc) (w p : Q) :
  is_creator caller s ->
  ObjectId.of_string id = Some n ->
  find_first [("_id", VOid n)] (contests s) = Some contest ->
  lookup "creatorEmail" contest = Some (VStr caller) ->
  not_eligible Date_parse now contest = false ->
  find_first [("email", bson (lookup "winnerEmail" body))] (users s)
  = Some winnerUser ->
  lookup "wins" winnerUser = Some (VNum w) ->
  lookup "participatedCount" winnerUser = Some (VNum p) ->
  p == 0 ->
  exists cs r,
    updated_first [("_id", VOid n)] (winner_update winnerUser contest)
      (contests s) cs r
    /\ put_contests_declare_winner Date_parse now (Some caller) id body s
       = (coll_set contestsCollection cs s, Thrown DivideByZero).
Proof.
  intros Hc Hid Hf Howner Hgate Hw Hwins Hpc Hz.
  rewrite declare_winner_cases by assumption.
  rewrite Hid, Hf. apply strict_neq_str_false in Howner.
  rewrite Howner, Hgate. cbn zeta. rewrite Hw.
  destruct (update_first_set_total [("_id", VOid n)]
              [("winner",
                VDoc [("email", bson (lookup "email" winnerUser));
                      ("name", bson (lookup "name" winnerUser));
                      ("photo", bson (lookup "photo" winnerUser));
                      ("prizeMoney", bson (lookup "prizeMoney" contest))]);
               ("status", VStr "Closed")] (contests s) eq_refl)
    as [cs [r Hcs]].
  exists cs, r. unfold winner_update. rewrite Hcs.
  split; [now apply update_first_ok|].
  rewrite (update_first_fails _ _ _ _ _ Hw
             (winner_stats_divide_by_zero _ _ _ Hwins Hpc Hz)).
  reflexivity.
Qed.

Lemma updated_first_applied (f : filter) (u : update) (c c' : list doc)
    (d d' : doc) :
  updated_first f u c c' (Some (d, d')) -> apply_update u d = inl d'.
Proof.
  intros H. inversion H as [|pre post d0 d0' Hpre Hm Hu]. now subst.
Qed.

(** The contest document after the [$set] of a declaration. *)
Lemma winner_update_ok (winnerUser contest d d' : doc) :
  apply_update (winner_update winnerUser contest) d = inl d' ->
  lookup "status" d' = Some (VStr "Closed")
  /\ lookup "winner" d'
     = Some (VDoc [("email", bson (lookup "email" winnerUser));
                   ("name", bson (lookup "name" winnerUser));
                   ("photo", bson (lookup "photo" winnerUser));
                   ("prizeMoney", bson (lookup "prizeMoney" contest))])
  /\ same_outside ["winner"; "status"] d d'.
Proof.
  unfold winner_update. cbn. intros H. injection H as <-. repeat split.
  - apply lookup_set_field_same.
  - rewrite lookup_set_field_other by discriminate.
    apply lookup_set_field_same.
  - intros k Hk. rewrite !lookup_set_field_other; [reflexivity| |];
      intros ->; apply Hk; simpl; auto.
Qed.

(** The closed contest is the one found under the same identifier. *)
Lemma declared_contest_found (n : N) (winnerUser contest : doc)
    (cs cs' : list doc) (r : option (doc * doc)) :
  updated_first [("_id", VOid n)] (winner_update winnerUser contest) cs cs' r ->
  find_first [("_id", VOid n)] cs = Some contest ->
  exists contest',
    find_first [("_id", VOid n)] cs' = Some contest'
    /\ apply_update (winner_update winnerUser contest) contest = inl contest'.
Proof.
  intros Hupd Hf.
  destruct (updated_first_found _ _ _ _ _ _ Hupd Hf) as [contest' [_ [Happ Hfound]]].
  exists contest'. split; [|assumption]. apply Hfound.
  destruct (winner_update_ok _ _ _ _ Happ) as [_ [_ Hsame]].
  apply find_first_some in Hf. destruct Hf as [_ Hm].
  assert (Hkeep : matches [("_id", VOid n)] contest'
                  = matches [("_id", VOid n)] contest).
  { apply matches_ext. intros k [<-|[]]. apply Hsame.
    simpl. intros [H|[H|[]]]; discriminate. }
  congruence.
Qed.

Lemma winner_stats_keeps_match (k : string) (q : value) (d d' : doc) :
  k <> "wins" -> k <> "winPercentage" ->
  apply_update winner_stats d = inl d' ->
  matches [(k, q)] d' = matches [(k, q)] d.
Proof.
  intros Hw Hp H. apply matches_ext. intros k' [<-|[]].
  apply (winner_stats_frame _ _ H). simpl. intros [E|[E|[]]]; congruence.
Qed.

(** A declaration does not change who is a creator. *)
Lemma is_creator_after_stats (caller : string) (f : filter) (s : store)
    (cs us : list doc) (r : option (doc * doc)) :
  updated_first f winner_stats (users s) us r ->
  is_creator caller s ->
  is_creator caller (coll_set usersCollection us
                       (coll_set contestsCollection cs s)).
Proof.
  intros Hupd [u [Hu Hrole]]. unfold is_creator. cbn [coll_set users].
  pose proof (find_first_after_update _ [("email", VStr caller)] _ _ _ _ Hupd)
    as Hafter.
  rewrite Hu in Hafter.
  destruct Hafter as [Hsame|[u' [-> Hu']]].
  - intros d d'. apply winner_stats_keeps_match; discriminate.
  - exists u. now split.
  - exists u'. split; [assumption|].
    apply updated_first_applied in Hupd.
    rewrite (winner_stats_frame _ _ Hupd); [assumption|].
    simpl. intros [E|[E|[]]]; discriminate.
Qed.

(** C2 (amended).  A declaration by the creator who owns the contest,
    when the contest's [deadline] is a valid date: it succeeds only if
    the current time is at or after the deadline and the [winner] field
    is unset (absent, or holding a falsy value); otherwise it is answered
    400 "Contest must be ended and winner not declared." and nothing is
    written.  Whatever the deadline, a declaration that follows a
    successful one on the same contest is answered 400 and writes
    nothing. *)
Theorem declare_winner_gate (now : Z) (caller id : string) (n : N)
    (body : doc) (s : store) (contest : doc) :
  is_creator caller s ->
  ObjectId.of_string id = Some n ->
  find_first [("_id", VOid n)] (contests s) = Some contest ->
  lookup "creatorEmail" contest = Some (VStr caller) ->
  let call :=
    put_contests_declare_winner Date_parse now (Some caller) id body s in
  (forall deadline,
      new_Date Date_parse (lookup "deadline" contest) = Some deadline ->
      let eligible :=
        (deadline <=? now)%Z && negb (truthy (lookup "winner" contest)) in
      (forall s' result, call = (s', Sent 200 result) -> eligible = true)
      /\ (eligible = false -> call = (s, Sent 400 invalid_state)))
  /\ (forall s' result,
        call = (s', Sent 200 result) ->
        forall now' body',
          put_contests_declare_winner Date_parse now' (Some caller) id body' s'
          = (s', Sent 400 invalid_state)).
Proof.
  intros Hc Hid Hf Howner. cbn zeta. split.
  - intros deadline Hd.
    assert (Hgate : not_eligible Date_parse now contest
                    = negb ((deadline <=? now)%Z
                            && negb (truthy (lookup "winner" contest)))).
    { unfold not_eligible. rewrite Hd. cbn [date_lt].
      rewrite Z.ltb_antisym, negb_andb, negb_involutive. reflexivity. }
    rewrite declare_winner_cases by assumption.
    rewrite Hid, Hf. apply strict_neq_str_false in Howner.
    rewrite Howner, Hgate. split.
    + intros s' result H.
      destruct ((deadline <=? now)%Z && _); [reflexivity|discriminate].
    + now intros ->.
  - intros s' result H now' body'.
    apply declare_winner_success in H.
    destruct H as (caller0 & n0 & contest0 & winnerUser & cs & us & r & r'
                   & Hcaller & _ & Hid0 & Hf0 & _ & _ & _ & Hcs & Hus & ->).
    rewrite Hid in Hid0. injection Hid0 as <-.
    rewrite Hf in Hf0. injection Hf0 as <-.
    rewrite declare_winner_cases by (eapply is_creator_after_stats; eassumption).
    rewrite Hid. cbn [coll_set contests].
    destruct (declared_contest_found _ _ _ _ _ _ Hcs Hf) as [contest' [Hf' Happ]].
    rewrite Hf'.
    destruct (winner_update_ok _ _ _ _ Happ) as [_ [Hwinner Hsame]].
    rewrite (Hsame "creatorEmail")
      by (simpl; intros [E|[E|[]]]; discriminate).
    apply strict_neq_str_false in Howner. rewrite Howner.
    unfold not_eligible. rewrite Hwinner. cbn [truthy].
    now rewrite orb_true_r.
Qed.


End DeclareWinner.



(** ** The sample deployment *)


Lemma declare_winner_gate_witness :
  (forall deadline,
      new_Date Sample.no_parse (lookup "deadline" Sample.stored_contest)
      = Some deadline ->
      let eligible :=
        (deadline <=? 2000)%Z
        && negb (truthy (lookup "winner" Sample.stored_contest)) in
      (forall s' result,
          Sample.declaration = (s', Sent 200 result) -> eligible = true)
      /\ (eligible = false ->
          Sample.declaration = (Sample.entered, Sent 400 invalid_state)))
  /\ (forall s' result,
        Sample.declaration = (s', Sent 200 result) ->
        forall now' body',
          put_contests_declare_winner Sample.no_parse now'
            (Some "creator@x.io") Sample.contest_id body' s'
          = (s', Sent 400 invalid_state)).
Proof.
  apply (declare_winner_gate Sample.no_parse 2000 "creator@x.io"
           Sample.contest_id 1 Sample.declare_ann Sample.entered
           Sample.stored_contest).
  - eexists. split; reflexivity.
  - reflexivity.
  - reflexivity.
  - reflexivity.
Defined.

(** The sample declaration does succeed, and a second one is refused. *)
Example sample_declaration_succeeds :
  snd Sample.declaration = Sent 200 (UpdateResult true true)
  /\ snd (put_contests_declare_winner Sample.no_parse 3000
            (Some "creator@x.io") Sample.contest_id
            [("winnerEmail", VStr "creator@x.io")] (fst Sample.declaration))
     = Sent 400 invalid_state.
Proof. split; reflexivity. Qed.

(** C2, as stated, fails: a contest stored without a deadline is
    declared at time 0.  No instant is at or after a missing deadline,
    yet the declaration succeeds. *)
Lemma undated_contest_declared :
  exists contest,
    find_first [("_id", VOid 2)] (contests Sample.with_undated) = Some contest
    /\ lookup "creatorEmail" contest = Some (VStr "creator@x.io")
    /\ lookup "winner" contest = None
    /\ lookup "deadline" contest = None
    /\ date_ge (Some 0%Z)
         (new_Date Sample.no_parse (lookup "deadline" contest)) = false
    /\ snd (put_contests_declare_winner Sample.no_parse 0
              (Some "creator@x.io") Sample.undated_id Sample.declare_ann
              Sample.with_undated)
       = Sent 200 (UpdateResult true true).
Proof. eexists. repeat split. Qed.


(** The full lifecycle of the sample: after the declaration the contest
    is closed with Ann as its winner, Ann has one win and a win
    percentage of 100. *)
Example sample_lifecycle :
  exists contest ann,
    find_first [("_id", VOid 1)] (contests (fst Sample.declaration))
    = Some contest
    /\ lookup "status" contest = Some (VStr "Closed")
    /\ lookup "winner" contest
       = Some (VDoc [("email", VStr "ann@x.io"); ("name", VStr "Ann");
                     ("photo", VNull); ("prizeMoney", num 50)])
    /\ find_first [("email", VStr "ann@x.io")] (users (fst Sample.declaration))
       = Some ann
    /\ lookup "wins" ann = Some (num 1)
    /\ lookup "participatedCount" ann = Some (num 1)
    /\ lookup "winPercentage" ann = Some (num 100).
Proof. eexists. eexists. repeat split. Qed.

(** C1 on the code.  Ann has entered no contest ([participatedCount] is
    0) when the creator declares her the winner, after the deadline.  The
    contest is closed with Ann as winner, then [$divide] is given a zero
    divisor: the statistics update is rejected, no user record changes
    (Ann's [wins] stays 0) and the handler throws instead of
    answering. *)
Theorem declare_winner_zero_count_throws :
  let call :=
    put_contests_declare_winner Sample.no_parse 2000 (Some "creator@x.io")
      Sample.contest_id Sample.declare_ann Sample.opened in
  (exists ann,
      find_first [("email", VStr "ann@x.io")] (users Sample.opened) = Some ann
      /\ lookup "participatedCount" ann = Some (num 0)
      /\ lookup "wins" ann = Some (num 0))
  /\ snd call = Thrown DivideByZero
  /\ users (fst call) = users Sample.opened
  /\ (exists contest,
        find_first [("_id", VOid 1)] (contests (fst call)) = Some contest
        /\ lookup "status" contest = Some (VStr "Closed")
        /\ lookup "winner" contest
           = Some (VDoc [("email", VStr "ann@x.io"); ("name", VStr "Ann");
                         ("photo", VNull); ("prizeMoney", num 50)])).
Proof.
  cbn zeta. split; [eexists; repeat split|].
  split; [reflexivity|]. split; [reflexivity|].
  eexists. repeat split.
Qed.

(** * Properties of the rest of the server *)

(** ** The credential of a request *)

Lemma split_word (t rest : string) :
  no_space t = true -> ends_word rest = true ->
  exists ws, Credential.split " " (t ++ rest)%string = t :: ws.
Proof.
  intros Ht Hrest. induction t as [|c t IH]; simpl in *.
  - destruct rest as [|c r]; simpl; [eauto|].
    simpl in Hrest. rewrite Hrest. eauto.
  - apply andb_true_iff in Ht. destruct Ht as [Hc Ht].
    apply negb_true_iff in Hc. rewrite Hc.
    destruct (IH Ht) as [ws ->]. eauto.
Qed.

Lemma request_token_bearer (t rest : string) (cookie : option string) :
  no_space t = true -> ends_word rest = true ->
  Credential.request_token (Some ("Bearer " ++ t ++ rest)%string) cookie = Some t.
Proof.
  intros Ht Hrest. unfold Credential.request_token.
  destruct (split_word t rest Ht Hrest) as [ws Hws].
  simpl. rewrite Hws.
  now destruct (t ++ rest)%string.
Qed.

(** X1.  An Authorization header of the form ["Bearer <t>"], where [<t>]
    runs up to the end or to the next space, decides alone: the token
    handed to [jwt.verify] is [<t>] and the cookie is never read.  With
    an empty [<t>] the request is answered 401 even if the cookie holds
    a token that verifies. *)
Theorem bearer_header_decides (jwt_verify : string -> option doc)
    (t rest : string) (cookie : option string) (next : doc -> handler) :
  no_space t = true -> ends_word rest = true ->
  Credential.verifyToken_request jwt_verify (Some ("Bearer " ++ t ++ rest)%string)
    cookie next
  = if String.eqb t "" then send 401 Credential.unauthorized
    else match jwt_verify t with
         | Some decoded => next decoded
         | None => send 401 Credential.unauthorized
         end.
Proof.
  intros Ht Hrest. unfold Credential.verifyToken_request.
  rewrite request_token_bearer by assumption.
  destruct (String.eqb t ""); [reflexivity|].
  now destruct (jwt_verify t).
Qed.

Lemma bearer_header_decides_witness :
  Credential.verifyToken_request (fun _ => Some [("email", VStr "ann@x.io")])
    (Some "Bearer ") (Some "a.valid.token")
    (fun decoded => send 200 (VDoc decoded))
  = send 401 Credential.unauthorized.
Proof.
  apply (bearer_header_decides (fun _ => Some [("email", VStr "ann@x.io")])
           "" "" (Some "a.valid.token") (fun decoded => send 200 (VDoc decoded)));
    reflexivity.
Defined.

(** X2.  Without an Authorization header, or with one that does not
    start with ["Bearer "], the request is authenticated by its [token]
    cookie alone: the header's content makes no difference. *)
Theorem other_header_falls_back_to_cookie
    (jwt_verify : string -> option doc) (h : string)
    (cookie : option string) (next : doc -> handler) :
  String.prefix "Bearer " h = false ->
  Credential.verifyToken_request jwt_verify (Some h) cookie next
  = Credential.verifyToken_request jwt_verify None cookie next.
Proof.
  intros Hp. unfold Credential.verifyToken_request, Credential.request_token.
  now rewrite Hp, andb_false_r.
Qed.

Lemma other_header_falls_back_to_cookie_witness :
  Credential.verifyToken_request
    (fun t => if String.eqb t "tok" then Some [("email", VStr "ann@x.io")]
              else None)
    (Some "Basic dXNlcjpwdw==") (Some "tok")
    (fun decoded => send 200 (VDoc decoded))
  = Credential.verifyToken_request
      (fun t => if String.eqb t "tok" then Some [("email", VStr "ann@x.io")]
                else None)
      None (Some "tok") (fun decoded => send 200 (VDoc decoded)).
Proof.
  apply (other_header_falls_back_to_cookie _ "Basic dXNlcjpwdw==").
  reflexivity.
Defined.

(** ** The database connection *)

Lemma connectDB_connected (connects : bool) (c : Connection.state) :
  Connection.isConnected c = true -> Connection.client c <> None ->
  Connection.connectDB connects c = (c, true).
Proof.
  unfold Connection.connectDB. intros -> Hc.
  destruct (Connection.client c); [reflexivity|contradiction].
Qed.

(** The flag is only raised together with a client. *)
Lemma connectDB_invariant (connects : bool) (c : Connection.state) :
  (Connection.isConnected c = true -> Connection.client c <> None) ->
  Connection.isConnected (fst (Connection.connectDB connects c)) = true ->
  Connection.client (fst (Connection.connectDB connects c)) <> None.
Proof.
  unfold Connection.connectDB. intros Hinv.
  destruct (Connection.isConnected c) eqn:Hf;
    destruct (Connection.client c) eqn:Hcl;
    destruct connects; simpl; try discriminate; try congruence.
Qed.

Lemma run_invariant (reqs : list (bool * handler))
    (c : Connection.state) (s : store) :
  (Connection.isConnected c = true -> Connection.client c <> None) ->
  Connection.isConnected (fst (Connection.run reqs (c, s))) = true ->
  Connection.client (fst (Connection.run reqs (c, s))) <> None.
Proof.
  revert c s. induction reqs as [|[connects h] reqs IH]; intros c s Hinv.
  - exact Hinv.
  - cbn [Connection.run]. unfold Connection.ensureDBConnection. cbn [fst snd].
    pose proof (connectDB_invariant connects c Hinv) as Hstep.
    destruct (Connection.connectDB connects c) as [c' [|]]; cbn [fst] in *;
      apply IH; assumption.
Qed.

(** X3.  Once a request has been served behind a live connection, the
    server never connects again: whatever the following requests are and
    whether or not a connection could be made at their time, the client
    and the flag stay as they are, no [MongoClient] is created, and every
    route runs (none is answered 500). *)
Theorem connected_once (before after : list (bool * handler)) (s : store) :
  let cs := Connection.run before (Connection.initial, s) in
  Connection.isConnected (fst cs) = true ->
  Connection.run after cs
  = (fst cs, fold_left (fun st r => fst (snd r st)) after (snd cs)).
Proof.
  cbn zeta. intros Hconn.
  assert (Hcl : Connection.client
                  (fst (Connection.run before (Connection.initial, s)))
                <> None).
  { apply run_invariant; [discriminate|assumption]. }
  destruct (Connection.run before (Connection.initial, s)) as [c s1].
  cbn [fst snd] in *. revert s1.
  induction after as [|[connects h] after IH]; intros s1; [reflexivity|].
  cbn [Connection.run fold_left snd]. unfold Connection.ensureDBConnection.
  cbn [fst snd]. rewrite connectDB_connected by assumption. apply IH.
Qed.

Lemma connected_once_witness :
  Connection.run [(false, post_users Sample.creator)]
    (Connection.run [(false, post_users Sample.creator);
                     (true, post_users Sample.creator)]
       (Connection.initial, empty_store))
  = (fst (Connection.run [(false, post_users Sample.creator);
                          (true, post_users Sample.creator)]
            (Connection.initial, empty_store)),
     fold_left (fun st r => fst (snd r st))
       [(false, post_users Sample.creator)]
       (snd (Connection.run [(false, post_users Sample.creator);
                             (true, post_users Sample.creator)]
               (Connection.initial, empty_store)))).
Proof.
  apply (connected_once
           [(false, post_users Sample.creator);
            (true, post_users Sample.creator)]
           [(false, post_users Sample.creator)] empty_store).
  reflexivity.
Defined.

(** ** ObjectIds: printing and parsing *)

Lemma hex_digit_digit_char (d : N) :
  (d < 16)%N -> ObjectId.hex_digit (ObjectId.digit_char d) = Some d.
Proof.
  intros H.
  assert (Hd : In d [0; 1; 2; 3; 4; 5; 6; 7; 8; 9; 10; 11; 12; 13; 14; 15]%N).
  { simpl. lia. }
  simpl in Hd.
  repeat (destruct Hd as [<-|Hd]; [reflexivity|]). destruct Hd.
Qed.

Lemma hex_value_to_hex (k : nat) (n a : N) (acc : string) :
  ObjectId.hex_value (ObjectId.to_hex k n acc) a
  = ObjectId.hex_value acc (a * 16 ^ N.of_nat k + n mod 16 ^ N.of_nat k)%N.
Proof.
  revert n a acc. induction k as [|k IH]; intros n a acc.
  - cbn [ObjectId.to_hex]. change (N.of_nat 0) with 0%N.
    rewrite N.pow_0_r, N.mod_1_r. f_equal. lia.
  - cbn [ObjectId.to_hex]. rewrite IH. cbn [ObjectId.hex_value].
    rewrite hex_digit_digit_char by (apply N.mod_lt; lia).
    f_equal. rewrite Nat2N.inj_succ, N.pow_succ_r'.
    rewrite (N.Div0.mod_mul_r n 16 (16 ^ N.of_nat k)). lia.
Qed.

Lemma length_to_hex (k : nat) (n : N) (acc : string) :
  String.length (ObjectId.to_hex k n acc) = (k + String.length acc)%nat.
Proof.
  revert n acc. induction k as [|k IH]; intros n acc; [reflexivity|].
  cbn [ObjectId.to_hex]. rewrite IH. simpl. lia.
Qed.

(** Parsing the printed form of an identifier gives it back. *)
Lemma of_string_toString (n : N) :
  (n < two96)%N -> ObjectId.of_string (ObjectId.toString n) = Some n.
Proof.
  intros H. unfold ObjectId.of_string, ObjectId.toString.
  rewrite length_to_hex. cbn [String.length Nat.add Nat.eqb].
  rewrite hex_value_to_hex. cbn [ObjectId.hex_value].
  f_equal. change (16 ^ N.of_nat 24)%N with two96.
  rewrite N.mod_small by assumption. lia.
Qed.

Lemma hex_digit_bound (c : ascii) (d : N) :
  ObjectId.hex_digit c = Some d -> (d < 16)%N.
Proof.
  unfold ObjectId.hex_digit.
  repeat match goal with
         | |- context [if ?b then _ else _] => destruct b eqn:?
         end; intros H; inversion H; subst;
    repeat match goal with
           | H : (_ && _)%bool = true |- _ => apply andb_true_iff in H; destruct H
           | H : (_ <=? _)%N = true |- _ => apply N.leb_le in H
           end; lia.
Qed.

Lemma hex_value_bound (s : string) (a m : N) :
  ObjectId.hex_value s a = Some m ->
  (a * 16 ^ N.of_nat (String.length s) <= m
   < (a + 1) * 16 ^ N.of_nat (String.length s))%N.
Proof.
  revert a. induction s as [|c s IH]; intros a H.
  - cbn in *. injection H as <-. lia.
  - cbn [ObjectId.hex_value] in H.
    destruct (ObjectId.hex_digit c) as [d|] eqn:Hd; [|discriminate].
    apply hex_digit_bound in Hd. apply IH in H.
    cbn [String.length]. rewrite Nat2N.inj_succ, N.pow_succ_r'. nia.
Qed.

(** A parsed identifier is below 2^96. *)
Lemma of_string_bound (s : string) (n : N) :
  ObjectId.of_string s = Some n -> (n < two96)%N.
Proof.
  unfold ObjectId.of_string.
  destruct (Nat.eqb (String.length s) 24) eqn:Hlen; [|discriminate].
  apply Nat.eqb_eq in Hlen. intros H. apply hex_value_bound in H.
  rewrite Hlen in H. unfold two96. change (N.of_nat 24) with 24%N in H. lia.
Qed.

(** Two identifiers below 2^96 that print alike are equal. *)
Lemma toString_injective (n m : N) :
  (n < two96)%N -> (m < two96)%N ->
  ObjectId.toString n = ObjectId.toString m -> n = m.
Proof.
  intros Hn Hm H. apply of_string_toString in Hn, Hm.
  rewrite H in Hn. congruence.
Qed.

Lemma lower_digit_char (d : N) :
  (d < 16)%N ->
  Router.lower_ascii (ObjectId.digit_char d) = ObjectId.digit_char d.
Proof.
  intros H.
  assert (Hd : In d [0; 1; 2; 3; 4; 5; 6; 7; 8; 9; 10; 11; 12; 13; 14; 15]%N).
  { simpl. lia. }
  simpl in Hd.
  repeat (destruct Hd as [<-|Hd]; [reflexivity|]). destruct Hd.
Qed.

Lemma lowercase_to_hex (k : nat) (n : N) (acc : string) :
  Router.lowercase (ObjectId.to_hex k n acc)
  = ObjectId.to_hex k n (Router.lowercase acc).
Proof.
  revert n acc. induction k as [|k IH]; intros n acc; [reflexivity|].
  cbn [ObjectId.to_hex]. rewrite IH. cbn [Router.lowercase].
  now rewrite lower_digit_char by (apply N.mod_lt; lia).
Qed.

(** An identifier prints in lower case. *)
Lemma lowercase_toString (n : N) :
  Router.lowercase (ObjectId.toString n) = ObjectId.toString n.
Proof. unfold ObjectId.toString. now rewrite lowercase_to_hex. Qed.

(** ** Roles *)

Lemma verifyRole_cases (role email : string) (next : handler) (s : store) :
  verifyRole role email next s
  = if strict_neq_str (role_of email s) role
    then (s, Sent 403 forbidden) else next s.
Proof.
  unfold verifyRole, await, findOne, send, role_of. cbn [coll_get].
  destruct (find_first _ (users s)); now destruct (strict_neq_str _ role).
Qed.

Lemma has_role_iff (role email : string) (s : store) :
  has_role role email s <-> strict_neq_str (role_of email s) role = false.
Proof.
  unfold has_role, role_of. rewrite strict_neq_str_false. split.
  - intros [u [-> Hu]]. exact Hu.
  - destruct (find_first _ (users s)) as [u|]; [|discriminate].
    intros H. now exists u.
Qed.

(** X4.  The role that [GET /users/role/:email] reports to the
    dashboard is the one the role middleware enforces: for a role other
    than the default, the route answers that role exactly when
    [verifyAdmin] / [verifyCreator] would let the same user through, and
    the middleware answers 403 otherwise. *)
Theorem role_endpoint_matches_middleware (role email : string) (s : store) :
  role <> "" -> role <> "Normal User" ->
  (has_role role email s
   <-> get_users_role (Some email) email s
       = Answer 200 (VDoc [("role", VStr role)]))
  /\ (has_role role email s ->
      forall next, verifyRole role email next s = next s)
  /\ (~ has_role role email s ->
      forall next, verifyRole role email next s = (s, Sent 403 forbidden)).
Proof.
  intros Hne Hdef. repeat split.
  - intros [u [Hu Hrole]].
    unfold get_users_role, verifyToken_r.
    rewrite String.eqb_refl. cbn [negb]. unfold role_of.
    rewrite Hu, Hrole. unfold js_or. cbn.
    apply String.eqb_neq in Hne. now rewrite Hne.
  - unfold get_users_role, verifyToken_r.
    rewrite String.eqb_refl. cbn [negb]. intros H.
    apply has_role_iff, strict_neq_str_false.
    injection H as H. unfold js_or in H.
    destruct (truthy (role_of email s)) eqn:Ht.
    + destruct (role_of email s) as [v|]; [|discriminate].
      cbn in H. now subst.
    + injection H as H. congruence.
  - intros H next. rewrite verifyRole_cases.
    apply has_role_iff in H. now rewrite H.
  - intros H next. rewrite verifyRole_cases.
    destruct (strict_neq_str (role_of email s) role) eqn:E; [reflexivity|].
    apply has_role_iff in E. contradiction.
Qed.

Lemma role_endpoint_matches_middleware_witness :
  (has_role "Contest Creator" "creator@x.io" Sample.opened
   <-> get_users_role (Some "creator@x.io") "creator@x.io" Sample.opened
       = Answer 200 (VDoc [("role", VStr "Contest Creator")]))
  /\ (has_role "Contest Creator" "creator@x.io" Sample.opened ->
      forall next,
        verifyRole "Contest Creator" "creator@x.io" next Sample.opened
        = next Sample.opened)
  /\ (~ has_role "Contest Creator" "creator@x.io" Sample.opened ->
      forall next,
        verifyRole "Contest Creator" "creator@x.io" next Sample.opened
        = (Sample.opened, Sent 403 forbidden)).
Proof.
  apply (role_endpoint_matches_middleware "Contest Creator" "creator@x.io"
           Sample.opened); discriminate.
Defined.

Lemma truthy_js_or_default (a : jsval) :
  truthy (Some (js_or a (VStr "Normal User"))) = true.
Proof.
  unfold js_or. destruct (truthy a) eqn:Ht; [|reflexivity].
  destruct a as [v|]; [exact Ht|discriminate].
Qed.

Lemma lookup_role_newUser (user : doc) :
  lookup "role" (newUser user)
  = Some (js_or (lookup "role" user) (VStr "Normal User")).
Proof.
  unfold newUser. apply (lookup_set_fields_last "role" _ []).
  simpl. intros [E|[E|[E|[E|[E|[]]]]]]; discriminate.
Qed.

(** What an accepted registration leaves in the store. *)
Lemma post_users_created (user : doc) (s s' : store) (result : value) :
  post_users user s = (s', Sent 201 result) ->
  exists id,
    find_first [("email", bson (lookup "email" user))] (users s) = None
    /\ s' = coll_set usersCollection
              (users s ++ [("_id", id) :: remove_field "_id" (newUser user)]) s.
Proof.
  rewrite post_users_cases.
  destruct (find_first _ (users s)) eqn:Hfind; [discriminate|].
  destruct (insert_doc _ (users s)) as [[l id]|e] eqn:Hins; [|discriminate].
  intros H. injection H as <- _. apply insert_doc_ok in Hins. subst l.
  now exists id.
Qed.

Lemma find_first_appended (f : filter) (c : list doc) (d : doc) :
  find_first f c = None -> matches f d = true ->
  find_first f (c ++ [d]) = Some d.
Proof.
  intros Hnone Hm. rewrite find_first_skip.
  - now apply find_first_head.
  - now apply find_first_none.
Qed.

(** X5.  Registration and the role route compose: right after an
    accepted registration under a string e-mail address, the role route
    reports that user's role as the role of the payload when it is
    truthy and ['Normal User'] otherwise. *)
Theorem registered_role_is_reported (user : doc) (email : string)
    (s s' : store) (result : value) :
  lookup "email" user = Some (VStr email) ->
  post_users user s = (s', Sent 201 result) ->
  get_users_role (Some email) email s'
  = Answer 200
      (VDoc [("role", js_or (lookup "role" user) (VStr "Normal User"))]).
Proof.
  intros Hemail H. apply post_users_created in H.
  destruct H as [id [Hnone ->]]. rewrite Hemail in Hnone. cbn [bson] in Hnone.
  unfold get_users_role, verifyToken_r.
  rewrite String.eqb_refl. cbn [negb]. unfold role_of. cbn [coll_set users].
  rewrite find_first_appended; [|assumption|].
  - rewrite lookup_inserted by discriminate.
    rewrite lookup_role_newUser.
    unfold js_or at 1. now rewrite truthy_js_or_default.
  - rewrite matches_single. unfold match_field.
    rewrite lookup_inserted by discriminate.
    rewrite lookup_newUser_other
      by (simpl; intros [E|[E|[E|[E|[E|[E|[]]]]]]]; discriminate).
    rewrite Hemail. simpl. apply String.eqb_refl.
Qed.

Lemma registered_role_is_reported_witness :
  get_users_role (Some "creator@x.io") "creator@x.io"
    (fst (post_users Sample.creator empty_store))
  = Answer 200
      (VDoc [("role",
              js_or (lookup "role" Sample.creator) (VStr "Normal User"))]).
Proof.
  apply (registered_role_is_reported Sample.creator "creator@x.io" empty_store
           (fst (post_users Sample.creator empty_store))
           (InsertOneResult (VOid 1))); reflexivity.
Defined.

(** X6.  [GET /users] asks for no credential and applies no projection:
    right after an accepted registration it lists the stored records
    followed by the new one, in which every field of the payload that
    registration does not set itself, a [password] included, is as it
    was sent. *)
Theorem registered_user_is_listed (user : doc) (s s' : store)
    (result : value) :
  post_users user s = (s', Sent 201 result) ->
  exists stored,
    get_users s' = Listing 200 (users s ++ [stored])
    /\ (forall k, ~ In k registration_fields -> k <> "_id" ->
          lookup k stored = lookup k user).
Proof.
  intros H. apply post_users_created in H. destruct H as [id [_ ->]].
  eexists. split; [reflexivity|].
  intros k Hk Hid. rewrite lookup_inserted by assumption.
  now apply lookup_newUser_other.
Qed.

Lemma registered_user_is_listed_witness :
  exists stored,
    get_users (fst (post_users Sample.creator empty_store))
    = Listing 200 (users empty_store ++ [stored])
    /\ (forall k, ~ In k registration_fields -> k <> "_id" ->
          lookup k stored = lookup k Sample.creator).
Proof.
  apply (registered_user_is_listed Sample.creator empty_store
           (fst (post_users Sample.creator empty_store))
           (InsertOneResult (VOid 1))).
  reflexivity.
Defined.

(** ** Editing, deleting and approving contests *)

Lemma match_field_str (d : doc) (k s : string) :
  match_field d k (VStr s) = true <-> lookup k d = Some (VStr s).
Proof.
  unfold match_field. destruct (lookup k d) as [v|]; simpl.
  - split; [intros H; f_equal; now apply value_eqb_str|].
    intros H. injection H as ->. apply value_eqb_refl.
  - split; discriminate.
Qed.

Lemma match_field_oid (d : doc) (k : string) (n : N) :
  match_field d k (VOid n) = true <-> lookup k d = Some (VOid n).
Proof.
  unfold match_field. destruct (lookup k d) as [v|]; simpl.
  - split.
    + destruct v; simpl; try discriminate.
      intros H. apply N.eqb_eq in H. now subst.
    + intros H. injection H as ->. apply N.eqb_refl.
  - split; discriminate.
Qed.

Lemma matches_editable (caller : string) (n : N) (c : doc) :
  matches [("_id", VOid n); ("creatorEmail", VStr caller);
           ("status", VStr "Pending")] c = true
  <-> editable_by caller n c.
Proof.
  unfold matches, editable_by. cbn [forallb fst snd].
  rewrite !andb_true_iff, match_field_oid, !match_field_str. tauto.
Qed.

Lemma set_update_result (kvs d d' : doc) :
  apply_update (USet kvs) d = inl d' -> d' = set_fields kvs d.
Proof.
  cbn [apply_update]. intros H.
  destruct (lookup "_id" kvs); [|now injection H].
  destruct (value_eqb _ _); [now injection H|discriminate].
Qed.

Lemma put_contests_id_cases (token : option string) (id : string)
    (body : doc) (s : store) :
  put_contests_id token id body s
  = match token with
    | None => (s, Sent 401 (message "Unauthorized access"))
    | Some caller =>
        match ObjectId.of_string id with
        | None => (s, Thrown BSONError)
        | Some n =>
            match update_first
                    [("_id", VOid n); ("creatorEmail", VStr caller);
                     ("status", VStr "Pending")] (USet body) (contests s) with
            | inl (l, r) =>
                (coll_set contestsCollection l s,
                 Sent 200 (UpdateResult (matched r) (modified r)))
            | inr e => (s, Thrown e)
            end
        end
    end.
Proof.
  unfold put_contests_id, verifyToken, await, new_ObjectId, updateOne, send.
  destruct token as [caller|]; [|reflexivity].
  destruct (ObjectId.of_string id) as [n|]; [|reflexivity].
  cbn [coll_get].
  now destruct (update_first _ _ (contests s)) as [[l r]|e].
Qed.





(** ** Sorting *)

Lemma then_compare_opp (c r : comparison) :
  CompOpp (then_compare c r) = then_compare (CompOpp c) (CompOpp r).
Proof. now destruct c. Qed.

Lemma bson_compare_antisym (a b : value) :
  bson_compare b a = CompOpp (bson_compare a b).
Proof.
  revert b. induction a using value_nested_ind; intros c; destruct c;
    try reflexivity.
  - simpl. now destruct b, b0.
  - simpl. symmetry. apply Qcompare_antisym.
  - simpl. apply String.compare_antisym.
  - simpl. apply N.compare_antisym.
  - simpl. revert fields.
    induction H as [|[k v] fs Hv _ IH]; intros [|[k' v'] ys];
      try reflexivity.
    simpl in Hv. rewrite !then_compare_opp.
    rewrite <- IH, <- Hv, <- String.compare_antisym, <- Nat.compare_antisym.
    reflexivity.
Qed.

Lemma sort_compare_antisym (keys : list sort_key) (a b : doc) :
  sort_compare keys b a = CompOpp (sort_compare keys a b).
Proof.
  induction keys as [|[k desc] keys IH]; [reflexivity|].
  cbn [sort_compare]. rewrite then_compare_opp, <- IH.
  rewrite (bson_compare_antisym (bson (lookup k a)) (bson (lookup k b))).
  now destruct desc; rewrite ?CompOpp_involutive.
Qed.

Lemma sort_le_total (keys : list sort_key) (a b : doc) :
  sort_le keys a b = false -> sort_le keys b a = true.
Proof.
  unfold sort_le. rewrite (sort_compare_antisym keys a b).
  now destruct (sort_compare keys a b).
Qed.

Lemma insert_sorted_perm (le : doc -> doc -> bool) (x : doc) (l : list doc) :
  Permutation (insert_sorted le x l) (x :: l).
Proof.
  induction l as [|y l IH]; cbn [insert_sorted]; [reflexivity|].
  destruct (le x y); [reflexivity|].
  rewrite IH. apply perm_swap.
Qed.

Lemma sort_by_perm (keys : list sort_key) (l : list doc) :
  Permutation (sort_by keys l) l.
Proof.
  unfold sort_by. induction l as [|x l IH]; cbn [fold_right]; [reflexivity|].
  rewrite insert_sorted_perm. now constructor.
Qed.

Lemma insert_sorted_sorted (keys : list sort_key) (x : doc) (l : list doc) :
  Sorted (fun a b => sort_le keys a b = true) l ->
  Sorted (fun a b => sort_le keys a b = true)
    (insert_sorted (sort_le keys) x l).
Proof.
  induction l as [|y l IH]; intros Hs; cbn [insert_sorted].
  - repeat constructor.
  - destruct (sort_le keys x y) eqn:Hle.
    + constructor; [assumption|]. now constructor.
    + inversion Hs as [|? ? Hs' Hhd]; subst.
      constructor; [now apply IH|].
      destruct l as [|z l]; cbn [insert_sorted].
      * constructor. now apply sort_le_total.
      * destruct (sort_le keys x z).
        -- constructor. now apply sort_le_total.
        -- constructor. now inversion Hhd.
Qed.

Lemma sort_by_sorted (keys : list sort_key) (l : list doc) :
  Sorted (fun a b => sort_le keys a b = true) (sort_by keys l).
Proof.
  unfold sort_by. induction l as [|x l IH]; cbn [fold_right].
  - constructor.
  - now apply insert_sorted_sorted.
Qed.

Lemma Sorted_impl (R R' : doc -> doc -> Prop) (P : doc -> Prop)
    (l : list doc) :
  (forall a b, P a -> P b -> R a b -> R' a b) ->
  Forall P l -> Sorted R l -> Sorted R' l.
Proof.
  intros Himp Hall Hs. induction Hs as [|a l Hs IH Hhd]; [constructor|].
  inversion Hall as [|? ? Pa Hall']; subst.
  constructor; [now apply IH|].
  destruct Hhd as [|b l Hab]; constructor.
  inversion Hall'; subst. now apply Himp.
Qed.

Lemma Sorted_firstn (R : doc -> doc -> Prop) (n : nat) (l : list doc) :
  Sorted R l -> Sorted R (firstn n l).
Proof.
  revert l. induction n as [|n IH]; intros l Hs; [constructor|].
  destruct Hs as [|a l Hs Hhd]; [constructor|].
  cbn [firstn]. constructor; [now apply IH|].
  destruct Hhd as [|b l Hab]; [destruct n; constructor|].
  destruct n; constructor. assumption.
Qed.

Lemma In_firstn (n : nat) (l : list doc) (x : doc) :
  In x (firstn n l) -> In x l.
Proof.
  intros H. rewrite <- (firstn_skipn n l). apply in_or_app. now left.
Qed.

Lemma count_ge_of_sort_le (a b : doc) :
  sort_le [("participantsCount", true)] a b = true -> count_ge a b.
Proof.
  unfold sort_le, count_ge. cbn [sort_compare].
  destruct (bson_compare _ _); simpl; congruence.
Qed.

(** ** The public listings of contests *)

Lemma find_all_spec (f : filter) (c : list doc) (d : doc) :
  In d (find_all f c) <-> In d c /\ matches f d = true.
Proof. apply filter_In. Qed.


(** X10.  [GET /contests/popular] lists at most six contests, all stored
    with status ['Confirmed'], by descending [participantsCount]; when six
    or fewer contests are confirmed it lists every one of them. *)
Theorem popular_listing (s : store) :
  exists items,
    get_contests_popular s = Listing 200 items
    /\ (List.length items <= 6)%nat
    /\ (forall c, In c items ->
          In c (contests s) /\ lookup "status" c = Some (VStr "Confirmed"))
    /\ Sorted count_ge items
    /\ ((List.length (find_all [("status", VStr "Confirmed")] (contests s))
         <= 6)%nat ->
        Permutation items
          (find_all [("status", VStr "Confirmed")] (contests s))).
Proof.
  eexists. split; [reflexivity|]. split; [apply firstn_le_length|].
  split; [|split].
  - intros c Hc. apply In_firstn in Hc.
    apply (Permutation_in _ (sort_by_perm _ _)) in Hc.
    apply find_all_spec in Hc. destruct Hc as [Hin Hm].
    rewrite matches_single in Hm. apply match_field_str in Hm. now split.
  - apply Sorted_firstn.
    eapply Sorted_impl with (P := fun _ => True);
      [|apply Forall_forall; trivial|apply sort_by_sorted].
    intros a b _ _. apply count_ge_of_sort_le.
  - intros Hlen. rewrite firstn_all2; [apply sort_by_perm|].
    now rewrite (Permutation_length (sort_by_perm _ _)).
Qed.

(** ** The leaderboard *)

Lemma lookup_project_in (keys : list string) (k : string) (d : doc) :
  In k keys -> lookup k (project keys d) = lookup k d.
Proof.
  intros Hin. unfold project. induction d as [|[k' v] d IH]; [reflexivity|].
  cbn [List.filter fst lookup].
  destruct (existsb (String.eqb k') keys) eqn:Hex; cbn [lookup].
  - now rewrite IH.
  - destruct (String.eqb k k') eqn:E; [|assumption].
    apply String.eqb_eq in E. subst k'.
    assert (Hk : existsb (String.eqb k) keys = true).
    { apply existsb_exists. exists k. split; [assumption|].
      apply String.eqb_refl. }
    congruence.
Qed.

Lemma lookup_project_out (keys : list string) (k : string) (d : doc) :
  ~ In k keys -> lookup k (project keys d) = None.
Proof.
  intros Hnin. unfold project. induction d as [|[k' v] d IH]; [reflexivity|].
  cbn [List.filter fst].
  destruct (existsb (String.eqb k') keys) eqn:Hex; [|assumption].
  cbn [lookup]. destruct (String.eqb k k') eqn:E; [|assumption].
  apply String.eqb_eq in E. subst k'.
  apply existsb_exists in Hex. destruct Hex as [x [Hx Hxk]].
  apply String.eqb_eq in Hxk. subst x. contradiction.
Qed.

Lemma gt_zero_wins (d : doc) :
  gt_zero "wins" d = true ->
  exists w, lookup "wins" d = Some (VNum w) /\ 0 < w.
Proof.
  unfold gt_zero. destruct (lookup "wins" d) as [[| |q| | |]|];
    try discriminate.
  intros H. exists q. split; [reflexivity|].
  apply negb_true_iff in H. apply Qnot_le_lt. intros Hle.
  apply Qle_bool_iff in Hle. congruence.
Qed.

Lemma wins_ge_of_sort_le (a b : doc) :
  gt_zero "wins" a = true -> gt_zero "wins" b = true ->
  sort_le [("wins", true); ("participatedCount", false)] a b = true ->
  wins_ge a b.
Proof.
  intros Ha Hb. apply gt_zero_wins in Ha, Hb.
  destruct Ha as [wa [Ha _]]. destruct Hb as [wb [Hb _]].
  unfold sort_le. cbn [sort_compare]. rewrite Ha, Hb. cbn [bson bson_compare].
  intros H. exists wa, wb. repeat split; try assumption.
  apply Qge_alt. intros Hlt. rewrite Hlt in H. discriminate.
Qed.

Lemma wins_ge_trans : Relations_1.Transitive wins_ge.
Proof.
  intros a b c (wa & wb & Ha & Hb & Hab) (wb' & wc & Hb' & Hc & Hbc).
  rewrite Hb in Hb'. injection Hb' as <-.
  exists wa, wc. repeat split; try assumption.
  now apply Qle_trans with wb.
Qed.

Lemma StronglySorted_app (R : doc -> doc -> Prop) (l1 l2 : list doc) :
  StronglySorted R (l1 ++ l2) ->
  StronglySorted R l1 /\ Forall (fun a => Forall (R a) l2) l1.
Proof.
  induction l1 as [|a l1 IH]; cbn [app]; intros H.
  - split; constructor.
  - inversion H as [|? ? Hs Hall]; subst.
    destruct (IH Hs) as [Hs1 Hcross].
    apply Forall_app in Hall. destruct Hall as [Hall1 Hall2].
    split; constructor; assumption.
Qed.

(** X11.  [GET /users/leaderboard] sends at most ten entries; each is a
    stored user whose [wins] is a number above zero, cut down to [name],
    [email], [photo], [wins] and [_id]: no other field of a user record,
    such as a password or the role, is ever in the response. *)
Theorem leaderboard_content (s : store) :
  exists items,
    get_users_leaderboard s = Listing 200 items
    /\ (List.length items <= 10)%nat
    /\ Forall
         (fun item =>
            (exists u w,
                In u (users s) /\ item = project leaderboard_fields u
                /\ lookup "wins" u = Some (VNum w) /\ 0 < w)
            /\ (forall k, ~ In k leaderboard_fields -> lookup k item = None))
         items.
Proof.
  eexists. split; [reflexivity|]. split.
  - rewrite length_map. apply firstn_le_length.
  - apply Forall_forall. intros item Hitem.
    apply in_map_iff in Hitem. destruct Hitem as [u [<- Hu]].
    apply In_firstn in Hu.
    apply (Permutation_in _ (sort_by_perm _ _)) in Hu.
    apply filter_In in Hu. destruct Hu as [Hin Hgt].
    apply gt_zero_wins in Hgt. destruct Hgt as [w [Hw Hpos]].
    split; [now exists u, w|].
    intros k Hk. now apply lookup_project_out.
Qed.

(** X12.  The leaderboard is a ranking by wins: the listed users are in
    non-increasing order of [wins], and no user with wins who is left out
    has more wins than a listed one.  Users are left out only when ten are
    listed. *)
Theorem leaderboard_ranked (s : store) :
  exists ranked rest,
    get_users_leaderboard s
    = Listing 200 (map (project leaderboard_fields) ranked)
    /\ Permutation (ranked ++ rest)
         (List.filter (gt_zero "wins") (users s))
    /\ (List.length ranked = 10%nat \/ rest = [])
    /\ StronglySorted wins_ge ranked
    /\ Forall (fun a => Forall (wins_ge a) rest) ranked.
Proof.
  set (winners := List.filter (gt_zero "wins") (users s)).
  set (keys := [("wins", true); ("participatedCount", false)]).
  exists (firstn 10 (sort_by keys winners)), (skipn 10 (sort_by keys winners)).
  split; [reflexivity|]. split; [|split].
  - rewrite firstn_skipn. apply sort_by_perm.
  - destruct (Nat.le_gt_cases 10 (List.length (sort_by keys winners)))
      as [Hle|Hlt].
    + left. now apply firstn_length_le.
    + right. apply skipn_all2. lia.
  - assert (Hall : Forall (fun u => gt_zero "wins" u = true)
                     (sort_by keys winners)).
    { apply Forall_forall. intros u Hu.
      apply (Permutation_in _ (sort_by_perm _ _)) in Hu.
      now apply filter_In in Hu. }
    assert (Hs : StronglySorted wins_ge (sort_by keys winners)).
    { apply Sorted_StronglySorted; [exact wins_ge_trans|].
      eapply Sorted_impl; [|exact Hall|apply sort_by_sorted].
      intros a b Ha Hb. now apply wins_ge_of_sort_le. }
    rewrite <- (firstn_skipn 10 (sort_by keys winners)) in Hs.
    now apply StronglySorted_app.
Qed.

(** ** Approval *)

Lemma updated_first_in (f : filter) (u : update) (c c' : list doc)
    (d d' : doc) :
  updated_first f u c c' (Some (d, d')) -> In d' c'.
Proof.
  intros H. inversion H as [|pre post d0 d0' Hpre Hm Hu]; subst.
  apply in_or_app. right. now left.
Qed.

(** X13.  Approval does not need an Admin: the creator who owns a
    ['Pending'] contest can [PUT] the status ['Confirmed'] on it, after
    which a contest under that identifier and owner is in the public
    listing of approved contests. *)
Theorem owner_can_approve_own_contest (caller id : string) (n : N)
    (c : doc) (s : store) :
  ObjectId.of_string id = Some n ->
  In c (contests s) ->
  editable_by caller n c ->
  let edit :=
    put_contests_id (Some caller) id [("status", VStr "Confirmed")] s in
  (exists result, snd edit = Sent 200 result)
  /\ exists c',
       In c' (listed (get_contests_approved None (fst edit)))
       /\ lookup "_id" c' = Some (VOid n)
       /\ lookup "creatorEmail" c' = Some (VStr caller)
       /\ lookup "status" c' = Some (VStr "Confirmed").
Proof.
  intros Hid Hin Hed. cbn zeta. rewrite put_contests_id_cases, Hid.
  set (f := [("_id", VOid n); ("creatorEmail", VStr caller);
             ("status", VStr "Pending")]).
  destruct (find_first_exists f (contests s) c Hin) as [c0 Hfind].
  { now apply matches_editable. }
  destruct (update_first_set_total f [("status", VStr "Confirmed")]
              (contests s) eq_refl) as [cs [r Hupd]].
  rewrite Hupd. cbn [fst snd]. split; [eauto|].
  apply update_first_ok in Hupd.
  destruct (updated_first_found _ _ _ _ _ _ Hupd Hfind)
    as [c' [-> [Happ _]]].
  apply set_update_result in Happ.
  apply find_first_some in Hfind. destruct Hfind as [_ Hm0].
  apply matches_editable in Hm0. destruct Hm0 as (Hid0 & Hown0 & _).
  assert (Hin' : In c' cs) by now apply updated_first_in in Hupd.
  exists c'. subst c'. unfold set_fields. cbn [fold_left fst snd].
  cbn [get_contests_approved listed coll_set contests approved_query].
  repeat split.
  - apply (Permutation_in _ (Permutation_sym (sort_by_perm _ _))).
    apply find_all_spec. split; [exact Hin'|].
    rewrite matches_single. apply match_field_str.
    apply lookup_set_field_same.
  - now rewrite lookup_set_field_other by discriminate.
  - now rewrite lookup_set_field_other by discriminate.
  - apply lookup_set_field_same.
Qed.

Lemma owner_can_approve_own_contest_witness :
  let edit :=
    put_contests_id (Some "creator@x.io") Sample.contest_id
      [("status", VStr "Confirmed")] Sample.entered in
  (exists result, snd edit = Sent 200 result)
  /\ exists c',
       In c' (listed (get_contests_approved None (fst edit)))
       /\ lookup "_id" c' = Some (VOid 1)
       /\ lookup "creatorEmail" c' = Some (VStr "creator@x.io")
       /\ lookup "status" c' = Some (VStr "Confirmed").
Proof.
  apply (owner_can_approve_own_contest "creator@x.io" Sample.contest_id 1
           Sample.stored_contest Sample.entered).
  - reflexivity.
  - left. reflexivity.
  - repeat split.
Defined.

Lemma patch_contests_status_cases (caller id : string) (body : doc)
    (s : store) :
  has_role "Admin" caller s ->
  patch_contests_status (Some caller) id body s
  = match ObjectId.of_string id with
    | None => (s, Thrown BSONError)
    | Some n =>
        match update_first [("_id", VOid n)]
                (USet [("status", bson (lookup "status" body))])
                (contests s) with
        | inl (l, r) =>
            (coll_set contestsCollection l s,
             Sent 200 (UpdateResult (matched r) (modified r)))
        | inr e => (s, Thrown e)
        end
    end.
Proof.
  intros Hadmin.
  unfold patch_contests_status, verifyToken, verifyAdmin.
  rewrite verifyRole_cases.
  apply has_role_iff in Hadmin. rewrite Hadmin.
  unfold await, new_ObjectId, updateOne, send.
  destruct (ObjectId.of_string id) as [n|]; [|reflexivity].
  cbn [coll_get].
  now destruct (update_first _ _ (contests s)) as [[l r]|e].
Qed.

(** X14.  An Admin sets the status of a contest whatever its current
    state: the contest found under the identifier gets the status of the
    body (null when the body has none), every other field, a declared
    [winner] included, stays, and no other collection changes.  A
    ['Closed'] contest can thus be put back to ['Confirmed']. *)
Theorem patch_status_is_unconditional (caller id : string) (n : N)
    (body c : doc) (s : store) :
  has_role "Admin" caller s ->
  ObjectId.of_string id = Some n ->
  find_first [("_id", VOid n)] (contests s) = Some c ->
  let s' := fst (patch_contests_status (Some caller) id body s) in
  (exists result,
      snd (patch_contests_status (Some caller) id body s) = Sent 200 result)
  /\ users s' = users s
  /\ participated s' = participated s
  /\ submissions s' = submissions s
  /\ exists c',
       find_first [("_id", VOid n)] (contests s') = Some c'
       /\ lookup "status" c' = Some (bson (lookup "status" body))
       /\ same_outside ["status"] c c'.
Proof.
  intros Hadmin Hid Hfind. cbn zeta.
  rewrite patch_contests_status_cases by assumption. rewrite Hid.
  destruct (update_first_set_total [("_id", VOid n)]
              [("status", bson (lookup "status" body))] (contests s) eq_refl)
    as [cs [r Hupd]].
  rewrite Hupd. cbn [fst snd coll_set users contests participated submissions].
  split; [eauto|]. repeat split.
  apply update_first_ok in Hupd.
  destruct (updated_first_found _ _ _ _ _ _ Hupd Hfind)
    as [c' [_ [Happ Hfound]]].
  pose proof (set_update_frame _ _ _ Happ) as Hframe.
  apply set_update_result in Happ.
  exists c'. split; [|split].
  - apply Hfound. apply find_first_some in Hfind. destruct Hfind as [_ Hm].
    assert (Hkeep : matches [("_id", VOid n)] c' = matches [("_id", VOid n)] c).
    { apply matches_ext. intros k [<-|[]]. apply Hframe.
      simpl. intros [E|[]]. discriminate. }
    congruence.
  - subst c'. apply lookup_set_field_same.
  - exact Hframe.
Qed.

Lemma patch_status_is_unconditional_witness :
  let s' :=
    fst (patch_contests_status (Some "root@x.io") Sample.contest_id
           [("status", VStr "Confirmed")] Sample2.closed) in
  (exists result,
      snd (patch_contests_status (Some "root@x.io") Sample.contest_id
             [("status", VStr "Confirmed")] Sample2.closed)
      = Sent 200 result)
  /\ users s' = users Sample2.closed
  /\ participated s' = participated Sample2.closed
  /\ submissions s' = submissions Sample2.closed
  /\ exists c',
       find_first [("_id", VOid 1)] (contests s') = Some c'
       /\ lookup "status" c'
          = Some (bson (lookup "status" [("status", VStr "Confirmed")]))
       /\ same_outside ["status"] Sample2.closed_contest c'.
Proof.
  apply (patch_status_is_unconditional "root@x.io" Sample.contest_id 1
           [("status", VStr "Confirmed")] Sample2.closed_contest
           Sample2.closed).
  - eexists. split; reflexivity.
  - reflexivity.
  - reflexivity.
Defined.

(** ** Recording a participation: the three writes *)

Lemma new_ObjectId_of_pure (v : jsval) (s : store) :
  new_ObjectId_of v s
  = (s, match objectId_of v with
        | inl oid => inl oid
        | inr _ => inr BSONError
        end).
Proof.
  unfold new_ObjectId_of, objectId_of.
  destruct v as [[| | |id| |]|]; try reflexivity.
  now destruct (ObjectId.of_string id).
Qed.

(** [POST /participated] unfolded into its ways out. *)
Lemma post_participated_cases (caller : string) (info : doc) (s : store) :
  post_participated (Some caller) info s
  = match insert_doc info (participated s) with
    | inr e => (s, Thrown e)
    | inl (ps, id) =>
        let s1 := coll_set participatedCollection ps s in
        match objectId_of (lookup "contestId" info) with
        | inr _ => (s1, Thrown BSONError)
        | inl oid =>
            match count_participant oid (contests s) with
            | inr e => (s1, Thrown e)
            | inl (cs, _) =>
                let s2 := coll_set contestsCollection cs s1 in
                match update_first
                        [("email", bson (lookup "participantEmail" info))]
                        (UInc "participatedCount" 1) (users s) with
                | inr e => (s2, Thrown e)
                | inl (us, _) =>
                    (coll_set usersCollection us s2,
                     Sent 200 (InsertOneResult id))
                end
            end
        end
    end.
Proof.
  unfold post_participated, verifyToken, await at 1, insertOne.
  cbn [coll_get].
  destruct (insert_doc info (participated s)) as [[ps id]|e]; [|reflexivity].
  unfold await at 1. rewrite new_ObjectId_of_pure. cbn zeta.
  destruct (objectId_of (lookup "contestId" info)) as [oid|e]; [|reflexivity].
  unfold await, updateOne_by_id, updateOne, count_participant, send.
  destruct oid as [v|]; cbn [coll_get coll_set contests users].
  - destruct (update_first _ _ (contests s)) as [[cs r]|e]; [|reflexivity].
    cbn [coll_get coll_set contests users].
    now destruct (update_first _ _ (users s)) as [[us r']|e].
  - now destruct (update_first _ _ (users s)) as [[us r']|e].
Qed.

Lemma inc_update_value (k : string) (a : Q) (d d' : doc) :
  apply_update (UInc k a) d = inl d' ->
  exists q,
    lookup k d' = Some (VNum q)
    /\ q == match lookup k d with
            | Some (VNum p) => p + a
            | _ => a
            end.
Proof.
  cbn [apply_update]. intros H.
  destruct (lookup k d) as [[| |p| | |]|]; try discriminate;
    injection H as <-; rewrite lookup_set_field_same.
  - exists (Qred (p + a)). split; [reflexivity|apply Qred_correct].
  - exists a. split; reflexivity.
Qed.





(** X16.  The three writes of [POST /participated] are not undone: when
    the entry's [contestId] is a string that is not a valid identifier,
    the entry is stored first, then building the contest filter throws.
    The handler ends in that exception with the participation recorded
    and neither counter touched. *)
Theorem post_participated_keeps_entry_on_bad_id (caller cid : string)
    (info : doc) (s : store) :
  lookup "contestId" info = Some (VStr cid) ->
  ObjectId.of_string cid = None ->
  post_participated (Some caller) info s = (s, Thrown DuplicateKey)
  \/ exists stored,
       post_participated (Some caller) info s
       = (coll_set participatedCollection (participated s ++ [stored]) s,
          Thrown BSONError)
       /\ forall k, k <> "_id" -> lookup k stored = lookup k info.
Proof.
  intros Hcid Hbad. rewrite post_participated_cases.
  destruct (insert_doc info (participated s)) as [[ps id]|e] eqn:Hins.
  - right. apply insert_doc_ok in Hins. subst ps. cbn zeta.
    unfold objectId_of. rewrite Hcid, Hbad.
    eexists. split; [reflexivity|].
    intros k Hk. now apply lookup_inserted.
  - left. apply insert_doc_error in Hins. now subst e.
Qed.

Lemma post_participated_keeps_entry_on_bad_id_witness :
  post_participated (Some "ann@x.io") Sample2.bad_entry Sample.opened
  = (Sample.opened, Thrown DuplicateKey)
  \/ exists stored,
       post_participated (Some "ann@x.io") Sample2.bad_entry Sample.opened
       = (coll_set participatedCollection
            (participated Sample.opened ++ [stored]) Sample.opened,
          Thrown BSONError)
       /\ forall k, k <> "_id" -> lookup k stored = lookup k Sample2.bad_entry.
Proof.
  apply (post_participated_keeps_entry_on_bad_id "ann@x.io" "not-an-id"
           Sample2.bad_entry Sample.opened); reflexivity.
Defined.

(** ** The participations of a user, with their contests *)

Lemma map_throwing_ok {A B E : Type} (f : A -> B + E) (xs : list A)
    (ys : list B) :
  map_throwing f xs = inl ys -> Forall2 (fun x y => f x = inl y) xs ys.
Proof.
  revert ys. induction xs as [|x xs IH]; intros ys H; cbn in H.
  - injection H as <-. constructor.
  - destruct (f x) as [y|e] eqn:Hx; [|discriminate].
    destruct (map_throwing f xs) as [ys'|e]; [|discriminate].
    injection H as <-. constructor; auto.
Qed.

Lemma map_throwing_total {A B E : Type} (f : A -> B + E) (xs : list A) :
  (forall x, In x xs -> exists y, f x = inl y) ->
  exists ys, map_throwing f xs = inl ys.
Proof.
  induction xs as [|x xs IH]; intros H; cbn; [eauto|].
  destruct (H x (or_introl eq_refl)) as [y ->].
  destruct IH as [ys ->]; [intros z Hz; apply H; now right|]. eauto.
Qed.

Lemma map_throwing_raises {A B E : Type} (f : A -> B + E) (xs : list A)
    (x : A) (e : E) :
  In x xs -> f x = inr e -> exists e', map_throwing f xs = inr e'.
Proof.
  induction xs as [|z xs IH]; intros Hin Hx; [destruct Hin|].
  cbn. destruct Hin as [->|Hin].
  - rewrite Hx. eauto.
  - destruct (f z); [|eauto].
    destruct (IH Hin Hx) as [e' ->]. eauto.
Qed.

Lemma objectId_of_error (v : jsval) (e : exception) :
  objectId_of v = inr e -> e = DriverError BSONError.
Proof.
  unfold objectId_of. destruct v as [[| | |id| |]|]; try discriminate;
    try (intros H; now injection H).
  destruct (ObjectId.of_string id); [discriminate|].
  intros H. now injection H.
Qed.

Lemma objectId_of_oid (v : jsval) (x : value) :
  objectId_of v = inl (Some x) -> exists m, x = VOid m.
Proof.
  unfold objectId_of. destruct v as [[| | |id| |]|]; try discriminate.
  - destruct (ObjectId.of_string id) as [m|]; [|discriminate].
    intros H. injection H as <-. eauto.
  - intros H. injection H as <-. eauto.
Qed.

Lemma lookup_json_set_same (k : string) (v : jsval) (d : doc) :
  lookup k (json_set k v d) = v.
Proof.
  destruct v; cbn [json_set];
    [apply lookup_set_field_same|apply lookup_remove_field_same].
Qed.

Lemma lookup_json_set_other (k k' : string) (v : jsval) (d : doc) :
  k <> k' -> lookup k (json_set k' v d) = lookup k d.
Proof.
  intros H. destruct v; cbn [json_set];
    [now apply lookup_set_field_other|now apply lookup_remove_field_other].
Qed.

Section Participations.

Variable Number_toString : Q -> string.

(** Documents selected by [$in] on ObjectIds have an ObjectId key. *)
Lemma id_in_oid (ids : list (option value)) (c : doc) :
  Forall (fun id => forall x, id = Some x -> exists m, x = VOid m) ids ->
  id_in ids c = true ->
  exists m, lookup "_id" c = Some (VOid m) /\ In (Some (VOid m)) ids.
Proof.
  intros Hids H. unfold id_in in H. apply existsb_exists in H.
  destruct H as [[x|] [Hin Hm]]; [|discriminate].
  rewrite Forall_forall in Hids.
  destruct (Hids _ Hin x eq_refl) as [m ->].
  apply match_field_oid in Hm. eauto.
Qed.

Lemma id_in_of_oid (ids : list (option value)) (c : doc) (m : N) :
  lookup "_id" c = Some (VOid m) -> In (Some (VOid m)) ids ->
  id_in ids c = true.
Proof.
  intros Hc Hin. unfold id_in. apply existsb_exists.
  exists (Some (VOid m)). split; [assumption|]. now apply match_field_oid.
Qed.

(** The contest merged into an entry whose [contestId] is the printed
    form of [n]: the first stored contest with that identifier. *)
Lemma detail_by_printed_id (ids : list (option value)) (cs : list doc)
    (n : N) :
  Forall (fun id => forall x, id = Some x -> exists m, x = VOid m) ids ->
  ids_in_range cs -> (n < two96)%N -> In (Some (VOid n)) ids ->
  find_by_id_string Number_toString (Some (VStr (ObjectId.toString n)))
    (List.filter (id_in ids) cs)
  = inl (find_first [("_id", VOid n)] cs).
Proof.
  intros Hids Hrange Hn Hin. unfold find_first.
  induction cs as [|c cs IH]; [reflexivity|].
  inversion Hrange as [|? ? Hc Hrange']; subst.
  cbn [List.filter find]. rewrite matches_single.
  destruct (id_in ids c) eqn:Hsel.
  - destruct (id_in_oid ids c Hids Hsel) as [m [Hm _]].
    cbn [find_by_id_string]. rewrite Hm. cbn [id_toString].
    unfold oid_of in Hc. rewrite Hm in Hc.
    destruct (String.eqb (ObjectId.toString m) (ObjectId.toString n)) eqn:E.
    + apply String.eqb_eq in E. apply toString_injective in E;
        [|assumption|assumption]. subst m.
      assert (Hmatch : match_field c "_id" (VOid n) = true)
        by now apply match_field_oid.
      now rewrite Hmatch.
    + assert (Hmatch : match_field c "_id" (VOid n) = false).
      { destruct (match_field c "_id" (VOid n)) eqn:Hmf; [|reflexivity].
        apply match_field_oid in Hmf. rewrite Hm in Hmf. injection Hmf as ->.
        now rewrite String.eqb_refl in E. }
      rewrite Hmatch. now apply IH.
  - assert (Hmatch : match_field c "_id" (VOid n) = false).
    { destruct (match_field c "_id" (VOid n)) eqn:Hmf; [|reflexivity].
      apply match_field_oid in Hmf.
      rewrite (id_in_of_oid ids c n Hmf Hin) in Hsel. discriminate. }
    rewrite Hmatch. now apply IH.
Qed.

(** No contest is merged into an entry whose [contestId] is not in the
    lower-case form that identifiers print in. *)
Lemma no_detail_for_unprinted_id (ids : list (option value)) (cs : list doc)
    (cid : string) :
  Forall (fun id => forall x, id = Some x -> exists m, x = VOid m) ids ->
  Router.lowercase cid <> cid ->
  find_by_id_string Number_toString (Some (VStr cid))
    (List.filter (id_in ids) cs) = inl None.
Proof.
  intros Hids Hcase. induction cs as [|c cs IH]; [reflexivity|].
  cbn [List.filter]. destruct (id_in ids c) eqn:Hsel; [|assumption].
  destruct (id_in_oid ids c Hids Hsel) as [m [Hm _]].
  cbn [find_by_id_string]. rewrite Hm. cbn [id_toString].
  destruct (String.eqb (ObjectId.toString m) cid) eqn:E; [|assumption].
  apply String.eqb_eq in E. subst cid.
  now rewrite lowercase_toString in Hcase.
Qed.

Lemma merge_never_throws (ids : list (option value)) (cs : list doc)
    (t : jsval) :
  Forall (fun id => forall x, id = Some x -> exists m, x = VOid m) ids ->
  exists detail,
    find_by_id_string Number_toString t (List.filter (id_in ids) cs)
    = inl detail.
Proof.
  intros Hids. induction cs as [|c cs IH]; [cbn; eauto|].
  cbn [List.filter]. destruct (id_in ids c) eqn:Hsel; [|assumption].
  destruct (id_in_oid ids c Hids Hsel) as [m [Hm _]].
  cbn [find_by_id_string]. rewrite Hm. cbn [id_toString].
  destruct (match t with Some (VStr t') => _ | _ => false end); eauto.
Qed.

Lemma contestIds_are_oids (ps : list doc) (ids : list (option value)) :
  map_throwing (fun p => objectId_of (lookup "contestId" p)) ps = inl ids ->
  Forall (fun id => forall x, id = Some x -> exists m, x = VOid m) ids.
Proof.
  intros H. apply map_throwing_ok in H.
  induction H as [|p id ps ids Hp _ IH]; constructor; [|assumption].
  intros x ->. now apply objectId_of_oid in Hp.
Qed.

(** [GET /participated/:email] for one's own address, unfolded. *)
Lemma get_participated_email_cases (email : string) (s : store) :
  let mine := find_all [("participantEmail", VStr email)] (participated s) in
  get_participated_email Number_toString (Some email) email s
  = match map_throwing (fun p => objectId_of (lookup "contestId" p)) mine with
    | inr e => Raised e
    | inl ids =>
        match map_throwing
                (merge_participation Number_toString
                   (List.filter (id_in ids) (contests s))) mine with
        | inr e => Raised e
        | inl merged => Listing 200 merged
        end
    end.
Proof.
  cbn zeta. unfold get_participated_email, verifyToken_r.
  now rewrite String.eqb_refl.
Qed.

(** What one item of the listing is, given the entry it was made from. *)
Lemma merged_item (ids : list (option value)) (s : store) (p item : doc) :
  Forall (fun id => forall x, id = Some x -> exists m, x = VOid m) ids ->
  ids_in_range (contests s) ->
  (forall id, objectId_of (lookup "contestId" p) = inl id -> In id ids) ->
  merge_participation Number_toString
    (List.filter (id_in ids) (contests s)) p = inl item ->
  joined_with (contests s) p item.
Proof.
  intros Hoids Hrange Hp Hitem. unfold joined_with, merge_participation in *.
  assert (Hshape : forall detail,
             find_by_id_string Number_toString (lookup "contestId" p)
               (List.filter (id_in ids) (contests s)) = inl detail ->
             item = json_set "image" (field_of detail "image")
                      (json_set "deadline" (field_of detail "deadline")
                         (json_set "contestName" (field_of detail "name")
                            p))).
  { intros detail Hd. rewrite Hd in Hitem. now injection Hitem. }
  split; [|split].
  - destruct (merge_never_throws ids (contests s)
                (lookup "contestId" p) Hoids) as [detail Hd].
    rewrite (Hshape _ Hd). intros k Hk.
    rewrite !lookup_json_set_other; [reflexivity| | |];
      intros ->; apply Hk; simpl; auto.
  - intros n Hn Hcid. cbn zeta.
    assert (Hin : In (Some (VOid n)) ids).
    { apply Hp. rewrite Hcid. unfold objectId_of.
      now rewrite of_string_toString. }
    rewrite (Hshape (find_first [("_id", VOid n)] (contests s))).
    + repeat (rewrite lookup_json_set_same
              || rewrite lookup_json_set_other by discriminate).
      auto.
    + rewrite Hcid. now apply detail_by_printed_id.
  - intros cid Hcid Hcase.
    rewrite (Hshape None).
    + repeat (rewrite lookup_json_set_same
              || rewrite lookup_json_set_other by discriminate).
      auto.
    + rewrite Hcid. now apply no_detail_for_unprinted_id.
Qed.

Lemma Forall2_in_left {A B : Type} (R : A -> B -> Prop) (xs : list A)
    (ys : list B) (x : A) :
  Forall2 R xs ys -> In x xs -> exists y, In y ys /\ R x y.
Proof.
  induction 1 as [|x' y' xs ys Hxy _ IH]; intros Hin; [destruct Hin|].
  destruct Hin as [->|Hin].
  - exists y'. split; [now left|assumption].
  - destruct (IH Hin) as [y [Hy HR]]. exists y. split; [now right|assumption].
Qed.

Lemma Forall2_strengthen {A B : Type} (R R' : A -> B -> Prop) (xs : list A)
    (ys : list B) :
  (forall x y, In x xs -> R x y -> R' x y) ->
  Forall2 R xs ys -> Forall2 R' xs ys.
Proof.
  intros H HR. induction HR as [|x y xs ys Hxy _ IH]; constructor.
  - apply H; [now left|assumption].
  - apply IH. intros x' y' Hin. apply H. now right.
Qed.

(** X17.  The listing of a user's participations has one item per
    stored entry of that user, in order; an item is the entry itself
    apart from [contestName], [deadline] and [image].  For an entry whose
    [contestId] is the printed identifier of a contest, these three are
    the [name], [deadline] and [image] of the first stored contest with
    that identifier (absent when it has none, or when no such contest is
    stored).  For an entry whose [contestId] is not written in lower case,
    such as a valid identifier in upper case, the three are absent even
    when the contest exists. *)
Theorem participations_joined (email : string) (s : store)
    (items : list doc) :
  ids_in_range (contests s) ->
  get_participated_email Number_toString (Some email) email s
  = Listing 200 items ->
  Forall2 (joined_with (contests s))
    (find_all [("participantEmail", VStr email)] (participated s)) items.
Proof.
  intros Hrange H. rewrite get_participated_email_cases in H. cbn zeta in H.
  set (mine := find_all _ (participated s)) in *.
  destruct (map_throwing _ mine) as [ids|e] eqn:Hids; [|discriminate].
  destruct (map_throwing (merge_participation _ _) mine) as [merged|e]
    eqn:Hmerge; [|discriminate].
  injection H as <-.
  pose proof (contestIds_are_oids _ _ Hids) as Hoids.
  apply map_throwing_ok in Hids, Hmerge.
  refine (Forall2_strengthen _ _ _ _ _ Hmerge).
  intros p item Hin Hitem.
  apply (merged_item ids s p item Hoids Hrange); [|assumption].
  intros id Hid.
  destruct (Forall2_in_left _ _ _ _ Hids Hin) as [id' [Hin' Hid']].
  cbv beta in Hid'. congruence.
Qed.

(** The listing fails exactly when one of the user's stored entries
    has a [contestId] that is no identifier. *)
Lemma participations_raise_iff (email : string) (s : store) :
  (exists p e,
      In p (find_all [("participantEmail", VStr email)] (participated s))
      /\ objectId_of (lookup "contestId" p) = inr e)
  <-> get_participated_email Number_toString (Some email) email s
      = Raised (DriverError BSONError).
Proof.
  rewrite get_participated_email_cases. cbn zeta.
  set (mine := find_all _ (participated s)).
  split.
  - intros [p [e [Hin Hp]]].
    destruct (map_throwing_raises
                (fun q => objectId_of (lookup "contestId" q)) mine p e Hin Hp)
      as [e' He'].
    rewrite He'. f_equal.
    clear - He'. induction mine as [|q qs IH]; [discriminate|].
    cbn in He'.
    destruct (objectId_of (lookup "contestId" q)) as [id|e1] eqn:Hq.
    + destruct (map_throwing _ qs) as [ids|e2]; [discriminate|].
      injection He' as <-. now apply IH.
    + injection He' as <-. now apply objectId_of_error in Hq.
  - destruct (map_throwing _ mine) as [ids|e] eqn:Hids.
    + pose proof (contestIds_are_oids _ _ Hids) as Hoids.
      destruct (map_throwing_total
                  (merge_participation Number_toString
                     (List.filter (id_in ids) (contests s))) mine)
        as [merged ->]; [|discriminate].
      intros p _. unfold merge_participation.
      destruct (merge_never_throws ids (contests s) (lookup "contestId" p)
                  Hoids) as [detail ->]. eauto.
    + intros _. clear - Hids. revert e Hids.
      induction mine as [|q qs IH]; intros e Hids; [discriminate|].
      cbn in Hids.
      destruct (objectId_of (lookup "contestId" q)) as [id|e1] eqn:Hq.
      * destruct (map_throwing _ qs) as [ids|e2] eqn:Hqs; [discriminate|].
        destruct (IH e2 eq_refl) as [p [e' [Hin Hp]]].
        exists p, e'. split; [now right|assumption].
      * exists q, e1. split; [now left|assumption].
Qed.

End Participations.

Lemma participations_joined_witness :
  exists items,
    get_participated_email Sample2.print_none (Some "ann@x.io") "ann@x.io"
      Sample.entered = Listing 200 items
    /\ Forall2 (joined_with (contests Sample.entered))
         (find_all [("participantEmail", VStr "ann@x.io")]
            (participated Sample.entered)) items.
Proof.
  eexists. split; [vm_compute; reflexivity|].
  apply (participations_joined Sample2.print_none "ann@x.io" Sample.entered).
  - repeat constructor.
  - vm_compute. reflexivity.
Defined.

(** ** What no route undoes *)

Lemma extends_refl {A : Type} (l : list A) : extends l l.
Proof. exists []. now rewrite app_nil_r. Qed.

Lemma extends_trans {A : Type} (l1 l2 l3 : list A) :
  extends l1 l2 -> extends l2 l3 -> extends l1 l3.
Proof.
  intros [a ->] [b ->]. exists (a ++ b). now rewrite app_assoc.
Qed.

Lemma extends_inserted (d : doc) (c c' : list doc) (id : value) :
  insert_doc d c = inl (c', id) -> extends c c'.
Proof. intros H. apply insert_doc_ok in H. subst c'. now eexists. Qed.

Lemma extends_In {A : Type} (l l' : list A) (x : A) :
  extends l l' -> In x l -> In x l'.
Proof. intros [a ->] H. apply in_or_app. now left. Qed.

Lemma stat_le_same (k : string) (d d' : doc) :
  lookup k d' = lookup k d ->
  (exists q, lookup k d = Some (VNum q)) -> stat_le k d d'.
Proof.
  intros H [q Hq]. exists q, q. rewrite H. repeat split; try assumption.
  apply Qle_refl.
Qed.

Lemma stat_le_trans (k : string) (a b c : doc) :
  stat_le k a b -> stat_le k b c -> stat_le k a c.
Proof.
  intros [q [q' [Ha [Hb Hle]]]] [r [r' [Hb' [Hc Hle']]]].
  rewrite Hb in Hb'. injection Hb' as <-.
  exists q, r'. repeat split; try assumption.
  eapply Qle_trans; eassumption.
Qed.

Lemma stat_le_numeric (a b : doc) :
  stat_le "wins" a b -> stat_le "participatedCount" a b -> stats_numeric b.
Proof.
  intros [_ [w [_ [Hw _]]]] [_ [p [_ [Hp _]]]]. split; eauto.
Qed.

Lemma evolves_refl (d : doc) : evolves d d.
Proof.
  split; [now intros k _|].
  intros [Hw Hp]. split; now apply stat_le_same.
Qed.

Lemma evolves_trans (a b c : doc) : evolves a b -> evolves b c -> evolves a c.
Proof.
  intros [Hab Sab] [Hbc Sbc]. split.
  - intros k Hk. rewrite (Hbc k Hk). now apply Hab.
  - intros Ha. destruct (Sab Ha) as [Hw Hp].
    destruct (Sbc (stat_le_numeric _ _ Hw Hp)) as [Hw' Hp'].
    split; eapply stat_le_trans; eassumption.
Qed.

(** The three updates that routes apply to user records. *)
Lemma update_evolves (u : update) (d d' : doc) :
  u = winner_stats \/ u = UInc "participatedCount" 1
  \/ (exists body, u = USet [("name", bson (lookup "name" body));
                             ("photo", bson (lookup "photo" body));
                             ("address", bson (lookup "address" body))]) ->
  apply_update u d = inl d' -> evolves d d'.
Proof.
  intros [->|[->|[body ->]]] Hu.
  - pose proof (winner_stats_frame _ _ Hu) as Hframe. split.
    + intros k Hk. apply Hframe.
      intros [<-|[<-|[]]]; apply Hk; simpl; auto 10.
    + intros [[w Hw] Hp]. split.
      * exists w, (Qred (w + 1)). split; [assumption|].
        split; [now apply (winner_stats_wins d)|].
        rewrite Qred_correct. rewrite <- (Qplus_0_r w) at 1.
        apply Qplus_le_r. discriminate.
      * apply stat_le_same; [|assumption]. apply Hframe.
        intros [E|[E|[]]]; discriminate.
  - pose proof (inc_update_frame _ _ _ _ Hu) as Hframe. split.
    + intros k Hk. apply Hframe. intros [<-|[]]; apply Hk; simpl; auto 10.
    + intros [Hw [p Hp]]. split.
      * apply stat_le_same; [|assumption]. apply Hframe.
        intros [E|[]]; discriminate.
      * destruct (inc_update_value _ _ _ _ Hu) as [q [Hq Hval]].
        rewrite Hp in Hval. exists p, q. repeat split; try assumption.
        rewrite Hval. rewrite <- (Qplus_0_r p) at 1.
        apply Qplus_le_r. discriminate.
  - pose proof (set_update_frame _ _ _ Hu) as Hframe. split.
    + intros k Hk. apply Hframe.
      intros [<-|[<-|[<-|[]]]]; apply Hk; simpl; auto 10.
    + intros [Hw Hp].
      split; (apply stat_le_same; [|assumption]); apply Hframe;
        intros [E|[E|[E|[]]]]; discriminate.
Qed.

Lemma Forall2_evolves_refl (l : list doc) : Forall2 evolves l l.
Proof. induction l; constructor; [apply evolves_refl|assumption]. Qed.

Lemma users_kept_refl (us : list doc) : users_kept us us.
Proof.
  exists us, []. split; [now rewrite app_nil_r|apply Forall2_evolves_refl].
Qed.

Lemma users_kept_trans (a b c : list doc) :
  users_kept a b -> users_kept b c -> users_kept a c.
Proof.
  intros [k1 [a1 [-> H1]]] [k2 [a2 [-> H2]]].
  apply Forall2_app_inv_l in H2.
  destruct H2 as [k2a [k2b [Ha [Hb ->]]]].
  exists k2a, (k2b ++ a2). split; [now rewrite app_assoc|].
  clear - H1 Ha. revert k2a Ha.
  induction H1 as [|x y l l' Hxy _ IH]; intros k2a Ha;
    inversion Ha as [|? z ? l'' Hyz Hrest]; subst; constructor.
  - eapply evolves_trans; eassumption.
  - now apply IH.
Qed.

Lemma users_kept_inserted (d : doc) (c c' : list doc) (id : value) :
  insert_doc d c = inl (c', id) -> users_kept c c'.
Proof.
  intros H. apply insert_doc_ok in H. subst c'.
  eexists c, _. split; [reflexivity|apply Forall2_evolves_refl].
Qed.

Lemma update_first_evolves (f : filter) (u : update) (c c' : list doc)
    (r : option (doc * doc)) :
  u = winner_stats \/ u = UInc "participatedCount" 1
  \/ (exists body, u = USet [("name", bson (lookup "name" body));
                             ("photo", bson (lookup "photo" body));
                             ("address", bson (lookup "address" body))]) ->
  update_first f u c = inl (c', r) -> Forall2 evolves c c'.
Proof.
  intros Hu H. apply update_first_ok in H.
  inversion H as [|pre post d d' Hpre Hm Happ]; subst;
    [apply Forall2_evolves_refl|].
  apply Forall2_app; [apply Forall2_evolves_refl|].
  constructor; [|apply Forall2_evolves_refl].
  eapply update_evolves; eassumption.
Qed.

Lemma users_kept_updated (f : filter) (u : update) (c c' : list doc)
    (r : option (doc * doc)) :
  u = winner_stats \/ u = UInc "participatedCount" 1
  \/ (exists body, u = USet [("name", bson (lookup "name" body));
                             ("photo", bson (lookup "photo" body));
                             ("address", bson (lookup "address" body))]) ->
  update_first f u c = inl (c', r) -> users_kept c c'.
Proof.
  intros Hu H. exists c', []. split; [now rewrite app_nil_r|].
  eapply update_first_evolves; eassumption.
Qed.

(** A record found under an address is still found under it once the
    records have evolved, and it is the evolved record. *)
Lemma users_kept_find (email : string) (us us' : list doc) (u : doc) :
  users_kept us us' ->
  find_first [("email", VStr email)] us = Some u ->
  exists u', find_first [("email", VStr email)] us' = Some u' /\ evolves u u'.
Proof.
  intros [kept [added [-> H]]]. unfold find_first.
  induction H as [|x y l l' Hxy _ IH]; intros Hfind; [discriminate|].
  cbn [find app] in *.
  assert (Hm : matches [("email", VStr email)] y
               = matches [("email", VStr email)] x).
  { apply matches_ext. intros k [<-|[]]. apply Hxy.
    simpl. intros [E|[E|[E|[E|[E|[E|[]]]]]]]; discriminate. }
  rewrite Hm. destruct (matches _ x).
  - injection Hfind as <-. eauto.
  - now apply IH.
Qed.

Section Permanence.

Variable Date_parse : string -> option Z.

(** One request: the user records stay in place and evolve;
    participations and submissions are only added. *)
Lemma handle_keeps (r : request) (s : store) :
  users_kept (users s) (users (fst (handle Date_parse r s)))
  /\ extends (participated s) (participated (fst (handle Date_parse r s)))
  /\ extends (submissions s) (submissions (fst (handle Date_parse r s))).
Proof.
  destruct r; cbn [handle]; unfold_handler; split_handler;
    repeat split;
    try apply users_kept_refl; try apply extends_refl;
    try (eapply extends_inserted; eassumption);
    try (eapply users_kept_inserted; eassumption);
    (eapply users_kept_updated; [|eassumption]); eauto.
Qed.

Lemma serve_keeps (rs : list request) (s : store) :
  users_kept (users s) (users (serve Date_parse rs s))
  /\ extends (participated s) (participated (serve Date_parse rs s))
  /\ extends (submissions s) (submissions (serve Date_parse rs s)).
Proof.
  revert s. induction rs as [|r rs IH]; intros s.
  - cbn. split; [apply users_kept_refl|split; apply extends_refl].
  - change (serve Date_parse (r :: rs) s)
      with (serve Date_parse rs (fst (handle Date_parse r s))).
    destruct (handle_keeps r s) as [Hu [Hp Hs]].
    destruct (IH (fst (handle Date_parse r s))) as [Hu' [Hp' Hs']].
    split; [eapply users_kept_trans; eassumption|].
    split; eapply extends_trans; eassumption.
Qed.

(** X18.  No route removes a user or rewrites what identifies one:
    whatever requests are served, a user found under an e-mail address is
    still found under it, and the record differs at most in [name],
    [photo], [address], [wins], [participatedCount] and [winPercentage].
    In particular the role given at registration, the address and the
    password are never changed by the server. *)
Theorem user_records_are_permanent (rs : list request) (email : string)
    (s : store) (u : doc) :
  find_first [("email", VStr email)] (users s) = Some u ->
  exists u',
    find_first [("email", VStr email)] (users (serve Date_parse rs s))
    = Some u'
    /\ same_outside mutable_fields u u'
    /\ lookup "role" u' = lookup "role" u
    /\ lookup "password" u' = lookup "password" u.
Proof.
  intros Hfind.
  destruct (serve_keeps rs s) as [Hkept _].
  destruct (users_kept_find email _ _ u Hkept Hfind) as [u' [Hfind' [Hsame _]]].
  exists u'. split; [assumption|]. split; [assumption|].
  split; apply Hsame; simpl; intros [E|[E|[E|[E|[E|[E|[]]]]]]]; discriminate.
Qed.

(** X19.  The counters of a user only go up: whatever requests are
    served, a user whose [wins] and [participatedCount] are numbers keeps
    numbers there, and neither is smaller than before. *)
Theorem user_counters_never_decrease (rs : list request) (email : string)
    (s : store) (u : doc) :
  find_first [("email", VStr email)] (users s) = Some u ->
  stats_numeric u ->
  exists u',
    find_first [("email", VStr email)] (users (serve Date_parse rs s))
    = Some u'
    /\ stat_le "wins" u u' /\ stat_le "participatedCount" u u'.
Proof.
  intros Hfind Hnum.
  destruct (serve_keeps rs s) as [Hkept _].
  destruct (users_kept_find email _ _ u Hkept Hfind) as [u' [Hfind' [_ Hstat]]].
  exists u'. split; [assumption|]. now apply Hstat.
Qed.

(** X20.  Participations and submissions are only ever added: whatever
    requests are served, the stored participations and the stored
    submissions are the former ones, unchanged and in the same order,
    followed by new ones.  No route edits or deletes either. *)
Theorem entries_are_append_only (rs : list request) (s : store) :
  extends (participated s) (participated (serve Date_parse rs s))
  /\ extends (submissions s) (submissions (serve Date_parse rs s)).
Proof. apply serve_keeps. Qed.

End Permanence.

Lemma user_records_are_permanent_witness :
  exists u',
    find_first [("email", VStr "ann@x.io")]
      (users (serve Sample.no_parse Sample2.busy Sample.entered)) = Some u'
    /\ same_outside mutable_fields Sample2.ann_record u'
    /\ lookup "role" u' = lookup "role" Sample2.ann_record
    /\ lookup "password" u' = lookup "password" Sample2.ann_record.
Proof.
  apply (user_records_are_permanent Sample.no_parse Sample2.busy "ann@x.io"
           Sample.entered Sample2.ann_record).
  reflexivity.
Defined.

Lemma user_counters_never_decrease_witness :
  exists u',
    find_first [("email", VStr "ann@x.io")]
      (users (serve Sample.no_parse Sample2.busy Sample.entered)) = Some u'
    /\ stat_le "wins" Sample2.ann_record u'
    /\ stat_le "participatedCount" Sample2.ann_record u'.
Proof.
  apply (user_counters_never_decrease Sample.no_parse Sample2.busy "ann@x.io"
           Sample.entered Sample2.ann_record).
  - reflexivity.
  - split; eexists; reflexivity.
Defined.

(** ** Registration keeps addresses unique *)

Section Uniqueness.

Variable Date_parse : string -> option Z.





End Uniqueness.


Section BrokenListing.

Variable Date_parse : string -> option Z.
Variable Number_toString : Q -> string.

(** X22.  A participation posted with a [contestId] that is no
    identifier breaks the participant's listing for good: the request
    itself ends in an exception after having stored the entry, and from
    then on, whatever requests are served, [GET /participated/:email] for
    that participant ends in the exception of [new ObjectId] without
    sending a response, since no route removes the entry. *)
Theorem bad_entry_breaks_listing (caller cid email : string) (info : doc)
    (s : store) (rs : list request) :
  lookup "contestId" info = Some (VStr cid) ->
  ObjectId.of_string cid = None ->
  lookup "participantEmail" info = Some (VStr email) ->
  snd (post_participated (Some caller) info s) = Thrown BSONError ->
  get_participated_email Number_toString (Some email) email
    (serve Date_parse rs (fst (post_participated (Some caller) info s)))
  = Raised (DriverError BSONError).
Proof.
  intros Hcid Hbad Hmail. rewrite post_participated_cases.
  destruct (insert_doc info (participated s)) as [[ps id]|e] eqn:Hins.
  - apply insert_doc_ok in Hins. subst ps. cbn zeta.
    unfold objectId_of at 1 2. rewrite Hcid, Hbad. cbn [fst snd]. intros _.
    apply participations_raise_iff.
    exists (("_id", id) :: remove_field "_id" info), (DriverError BSONError).
    split.
    + apply find_all_spec. split.
      * eapply extends_In; [apply serve_keeps|].
        cbn [participated coll_set]. apply in_or_app. right. now left.
      * rewrite matches_single. apply match_field_str.
        now rewrite lookup_inserted by discriminate.
    + rewrite lookup_inserted by discriminate.
      unfold objectId_of. now rewrite Hcid, Hbad.
  - apply insert_doc_error in Hins. subst e. discriminate.
Qed.

End BrokenListing.

Lemma bad_entry_breaks_listing_witness :
  get_participated_email Sample2.print_none (Some "ann@x.io") "ann@x.io"
    (serve Sample.no_parse Sample2.busy
       (fst (post_participated (Some "ann@x.io") Sample2.bad_entry
               Sample.opened)))
  = Raised (DriverError BSONError).
Proof.
  apply (bad_entry_breaks_listing Sample.no_parse Sample2.print_none
           "ann@x.io" "not-an-id" "ann@x.io" Sample2.bad_entry Sample.opened
           Sample2.busy); reflexivity.
Defined.

(** ** The routing table *)

Ltac first_match :=
  repeat match goal with
         | |- (if ?c then _ else _) <> _ => destruct c eqn:?
         end;
  try discriminate.

Lemma dispatch_never_contests_all (m : Router.method) (path : list string) :
  Router.dispatch m path <> Some Router.contests_all.
Proof.
  unfold Router.dispatch, Router.table.
  destruct m; cbn [Router.dispatch_in Router.method_eqb andb];
    try (first_match; fail).
  destruct path as [|a [|b [|c [|d rest]]]];
    cbn [Router.path_matches]; rewrite ?andb_false_r; cbn [andb];
    try (first_match; fail).
  destruct b as [|ch b]; cbn [String.eqb negb andb];
    rewrite ?andb_false_r, ?andb_true_r; cbn [andb].
  - first_match.
  - destruct (Router.lowercase "users" =? Router.lowercase a)%string;
      destruct (Router.lowercase "contests" =? Router.lowercase a)%string;
      cbn [andb]; first_match.
Qed.

(** X23.  Which handlers a request can reach: every route registered in
    [index.js] is the first match of some request, except
    [GET /contests/all], which no request reaches, because
    [GET /contests/:id] is registered before it and matches the same
    paths. *)
Theorem routes_reached (r : Router.route) :
  (exists m path, Router.dispatch m path = Some r)
  <-> r <> Router.contests_all.
Proof.
  split.
  - intros [m [path H]] ->. now apply dispatch_never_contests_all in H.
  - intros H. destruct r; try congruence.
    + exists Router.GET, []. reflexivity.
    + exists Router.POST, ["jwt"]. reflexivity.
    + exists Router.POST, ["logout"]. reflexivity.
    + exists Router.GET, ["users"; "leaderboard"]. reflexivity.
    + exists Router.GET, ["users"]. reflexivity.
    + exists Router.POST, ["users"]. reflexivity.
    + exists Router.GET, ["users"; "role"; "x"]. reflexivity.
    + exists Router.GET, ["users"; "x"]. reflexivity.
    + exists Router.PUT, ["users"; "x"]. reflexivity.
    + exists Router.POST, ["contests"]. reflexivity.
    + exists Router.GET, ["contests"; "creator"; "x"]. reflexivity.
    + exists Router.PUT, ["contests"; "x"]. reflexivity.
    + exists Router.DELETE, ["contests"; "x"]. reflexivity.
    + exists Router.GET, ["contests"; "approved"]. reflexivity.
    + exists Router.GET, ["contests"; "popular"]. reflexivity.
    + exists Router.GET, ["contests"; "x"]. reflexivity.
    + exists Router.PATCH, ["contests"; "status"; "x"]. reflexivity.
    + exists Router.GET, ["participated"; "check"; "x"]. reflexivity.
    + exists Router.POST, ["participated"]. reflexivity.
    + exists Router.GET, ["participated"; "x"]. reflexivity.
    + exists Router.POST, ["submissions"]. reflexivity.
    + exists Router.GET, ["submissions"; "creator"; "x"]. reflexivity.
    + exists Router.PUT, ["contests"; "declare-winner"; "x"]. reflexivity.
    + exists Router.GET, ["contests"; "winner"; "x"]. reflexivity.
Qed.

Lemma length_lowercase (x : string) :
  String.length (Router.lowercase x) = String.length x.
Proof.
  induction x as [|c x IH]; [reflexivity|].
  cbn [Router.lowercase String.length]. now rewrite IH.
Qed.

(** X24.  What a request for the list of all contests gets:
    [GET /contests/all], in any letter case, is handled by
    [GET /contests/:id] with ["all"] as the identifier.  A caller without
    a token is answered 401; for any other caller, the Admin included,
    [new ObjectId] throws and no response is sent. *)
Theorem contests_all_is_shadowed (x : string) (token : option string)
    (s : store) :
  Router.lowercase x = "all" ->
  Router.dispatch Router.GET ["contests"; x] = Some Router.contests_id
  /\ get_contests_id token x s
     = match token with
       | None => Answer 401 (message "Unauthorized access")
       | Some _ => Raised (DriverError BSONError)
       end.
Proof.
  intros H. split.
  - assert (Hx : (x =? "")%string = false).
    { destruct x; [discriminate H|reflexivity]. }
    unfold Router.dispatch, Router.table.
    cbv [Router.dispatch_in Router.method_eqb andb Router.path_matches].
    rewrite H, Hx. reflexivity.
  - destruct token as [caller|]; [|reflexivity].
    unfold get_contests_id, verifyToken_r, ObjectId.of_string.
    rewrite <- length_lowercase, H. reflexivity.
Qed.

Lemma contests_all_is_shadowed_witness :
  Router.dispatch Router.GET ["contests"; "all"] = Some Router.contests_id
  /\ get_contests_id (Some "root@x.io") "all" Sample2.closed
     = Raised (DriverError BSONError).
Proof.
  apply (contests_all_is_shadowed "all" (Some "root@x.io") Sample2.closed).
  reflexivity.
Defined.

(** ** Submissions to a creator's contests *)

Lemma Forall2_in_right {A B : Type} (R : A -> B -> Prop) (xs : list A)
    (ys : list B) (y : B) :
  Forall2 R xs ys -> In y ys -> exists x, In x xs /\ R x y.
Proof.
  induction 1 as [|x' y' xs ys Hxy _ IH]; intros Hin; [destruct Hin|].
  destruct Hin as [->|Hin].
  - exists x'. split; [now left|assumption].
  - destruct (IH Hin) as [x [Hx HR]]. exists x. split; [now right|assumption].
Qed.

Section Submissions.

Variable Number_toString : Q -> string.

(** [GET /submissions/creator/:email] without a [contestId] filter, for
    a caller who passes [verifyCreator]. *)
Lemma get_submissions_creator_cases (caller email : string) (s : store) :
  has_role "Contest Creator" caller s ->
  get_submissions_creator Number_toString (Some caller) email None s
  = let creatorContests :=
      find_all [("creatorEmail", VStr email)] (contests s) in
    match map_throwing (fun c => id_toString Number_toString (lookup "_id" c))
            creatorContests with
    | inr e => Raised e
    | inl contestIds =>
        match map_throwing (merge_submission Number_toString creatorContests)
                (List.filter (contestId_in contestIds) (submissions s)) with
        | inr e => Raised e
        | inl merged => Listing 200 merged
        end
    end.
Proof.
  intros H. apply has_role_iff in H.
  unfold get_submissions_creator, verifyToken_r, verifyRole_r.
  now rewrite H.
Qed.

(** X25.  [GET /submissions/creator/:email] checks the caller's role
    and nothing else: for every caller with the Creator role, whoever
    [email] is, the listing has one item per stored submission whose
    [contestId] is the printed identifier of a contest created by
    [email], each item being the submission itself apart from
    [contestName]; every other Creator gets the same listing.  The
    address in the path is not compared with the caller's. *)
Theorem submissions_open_to_every_creator (caller email : string)
    (s : store) (items : list doc) :
  has_role "Contest Creator" caller s ->
  get_submissions_creator Number_toString (Some caller) email None s
  = Listing 200 items ->
  (exists subs,
      Forall2 (same_outside ["contestName"]) subs items
      /\ forall sub,
           In sub subs
           <-> In sub (submissions s)
               /\ submitted_to Number_toString email s sub)
  /\ forall other,
       has_role "Contest Creator" other s ->
       get_submissions_creator Number_toString (Some other) email None s
       = Listing 200 items.
Proof.
  intros Hrole H. split.
  - rewrite get_submissions_creator_cases in H by assumption. cbn zeta in H.
    set (mine := find_all _ (contests s)) in *.
    destruct (map_throwing _ mine) as [ids|e] eqn:Hids; [|discriminate].
    destruct (map_throwing (merge_submission _ _) _) as [merged|e] eqn:Hm;
      [|discriminate].
    injection H as <-.
    apply map_throwing_ok in Hids, Hm.
    exists (List.filter (contestId_in ids) (submissions s)). split.
    + refine (Forall2_strengthen _ _ _ _ _ Hm).
      intros sub item _ Hitem. unfold merge_submission in Hitem.
      destruct (find_by_id_string _ _ mine) as [contest|e]; [|discriminate].
      injection Hitem as <-. intros k Hk.
      apply lookup_json_set_other. intros ->. apply Hk. now left.
    + intros sub. rewrite filter_In. unfold contestId_in, submitted_to.
      rewrite existsb_exists. split.
      * intros [Hin [cid [Hcid Hmatch]]]. split; [assumption|].
        apply match_field_str in Hmatch.
        destruct (Forall2_in_right _ _ _ _ Hids Hcid) as [c [Hc Hprint]].
        apply find_all_spec in Hc. destruct Hc as [Hc Hown].
        rewrite matches_single in Hown. apply match_field_str in Hown.
        exists c, cid. auto.
      * intros [Hin [c [cid [Hc [Hown [Hprint Hsub]]]]]].
        split; [assumption|].
        assert (Hmine : In c mine).
        { apply find_all_spec. split; [assumption|].
          rewrite matches_single. now apply match_field_str. }
        destruct (Forall2_in_left _ _ _ _ Hids Hmine) as [cid' [Hcid' Hp]].
        cbv beta in Hp. rewrite Hprint in Hp. injection Hp as <-.
        exists cid. split; [assumption|]. now apply match_field_str.
  - intros other Hother. rewrite <- H.
    now rewrite !get_submissions_creator_cases.
Qed.

End Submissions.

Lemma submissions_open_to_every_creator_witness :
  exists items,
    get_submissions_creator Sample2.print_none (Some "rival@x.io")
      "creator@x.io" None Sample2.submitted = Listing 200 items
    /\ (exists subs,
          Forall2 (same_outside ["contestName"]) subs items
          /\ forall sub,
               In sub subs
               <-> In sub (submissions Sample2.submitted)
                   /\ submitted_to Sample2.print_none "creator@x.io"
                        Sample2.submitted sub)
    /\ forall other,
         has_role "Contest Creator" other Sample2.submitted ->
         get_submissions_creator Sample2.print_none (Some other)
           "creator@x.io" None Sample2.submitted
         = Listing 200 items.
Proof.
  eexists. split; [vm_compute; reflexivity|].
  apply (submissions_open_to_every_creator Sample2.print_none "rival@x.io"
           "creator@x.io" Sample2.submitted).
  - eexists. split; reflexivity.
  - vm_compute. reflexivity.
Defined.

(** ** A contest once it is created *)

Lemma insert_doc_unused (d : doc) (c c' : list doc) (id : value) :
  insert_doc d c = inl (c', id) -> forall x, In x c -> has_id id x = false.
Proof.
  unfold insert_doc. destruct (existsb _ c) eqn:E; [discriminate|].
  intros H. injection H as _ <-. intros x Hx.
  destruct (has_id _ x) eqn:Hid; [|reflexivity].
  assert (Hex : existsb
                  (has_id (if nullish (bson (lookup "_id" d))
                           then VOid (fresh_oid c) else bson (lookup "_id" d)))
                  c = true)
    by (apply existsb_exists; eauto).
  congruence.
Qed.

Lemma has_id_oid (n : N) (x : doc) :
  has_id (VOid n) x = match_field x "_id" (VOid n).
Proof. unfold has_id, match_field. now destruct (lookup "_id" x). Qed.

(** [POST /contests] when it answers 201. *)
Lemma post_contests_created (caller : string) (body : doc) (s s' : store)
    (result : value) :
  post_contests (Some caller) body s = (s', Sent 201 result) ->
  exists cs id,
    insert_doc body (contests s) = inl (cs, id)
    /\ s' = coll_set contestsCollection cs s
    /\ result = InsertOneResult id.
Proof.
  unfold post_contests, verifyToken, verifyCreator.
  rewrite verifyRole_cases.
  destruct (strict_neq_str _ _); [discriminate|].
  unfold await, insertOne, send. cbn [coll_get].
  destruct (insert_doc body (contests s)) as [[cs id]|e]; [|discriminate].
  intros H. injection H as <- <-. now exists cs, id.
Qed.

(** X26.  A contest can be read by its identifier as soon as it is
    created: after [POST /contests] has answered 201 with an inserted
    ObjectId, [GET /contests/:id] with the printed identifier sends the
    stored contest, which is the payload with its key, to every caller
    with a token, whatever the caller's role and the contest's status. *)
Theorem created_contest_is_readable (caller reader : string) (body : doc)
    (s s' : store) (n : N) :
  post_contests (Some caller) body s
  = (s', Sent 201 (InsertOneResult (VOid n))) ->
  (n < two96)%N ->
  get_contests_id (Some reader) (ObjectId.toString n) s'
  = Answer 200 (VDoc (("_id", VOid n) :: remove_field "_id" body)).
Proof.
  intros H Hn. apply post_contests_created in H.
  destruct H as [cs [id [Hins [-> Hid]]]].
  assert (id = VOid n) by (unfold InsertOneResult in Hid; congruence).
  subst id.
  pose proof (insert_doc_unused _ _ _ _ Hins) as Hfresh.
  apply insert_doc_ok in Hins. subst cs.
  unfold get_contests_id, verifyToken_r.
  rewrite of_string_toString by assumption.
  cbn [contests coll_set].
  rewrite find_first_appended; [reflexivity| |].
  - destruct (find_first _ (contests s)) as [x|] eqn:Hf; [|reflexivity].
    apply find_first_some in Hf. destruct Hf as [Hin Hm].
    rewrite matches_single, <- has_id_oid in Hm.
    rewrite (Hfresh x Hin) in Hm. discriminate.
  - rewrite matches_single. now apply match_field_oid.
Qed.

Lemma created_contest_is_readable_witness :
  get_contests_id (Some "ann@x.io") (ObjectId.toString 2)
    (fst (post_contests (Some "creator@x.io") Sample.undated Sample.entered))
  = Answer 200 (VDoc (("_id", VOid 2) :: remove_field "_id" Sample.undated)).
Proof.
  apply (created_contest_is_readable "creator@x.io" "ann@x.io" Sample.undated
           Sample.entered
           (fst (post_contests (Some "creator@x.io") Sample.undated
                   Sample.entered)) 2);
    reflexivity.
Defined.

(** X27.  [POST /contests] does not bind a contest to its creator: the
    contest is stored under the [creatorEmail] of the payload.  After a
    201, the listing of that address's contests contains the new contest;
    when the address is not the caller's, the caller's own listing does
    not. *)
Theorem contest_belongs_to_payload_owner (caller owner : string) (body : doc)
    (s s' : store) (result : value) :
  post_contests (Some caller) body s = (s', Sent 201 result) ->
  lookup "creatorEmail" body = Some (VStr owner) ->
  exists stored,
    (forall k, k <> "_id" -> lookup k stored = lookup k body)
    /\ contests s' = contests s ++ [stored]
    /\ (exists items,
           get_contests_creator (Some owner) owner s' = Listing 200 items
           /\ In stored items)
    /\ (caller <> owner ->
        get_contests_creator (Some caller) caller s'
        = get_contests_creator (Some caller) caller s).
Proof.
  intros H Hown. apply post_contests_created in H.
  destruct H as [cs [id [Hins [-> _]]]].
  apply insert_doc_ok in Hins. subst cs.
  exists (("_id", id) :: remove_field "_id" body).
  assert (Hstored : lookup "creatorEmail" (("_id", id) :: remove_field "_id" body)
                    = Some (VStr owner))
    by now rewrite lookup_inserted by discriminate.
  split; [intros k Hk; now apply lookup_inserted|].
  split; [reflexivity|].
  unfold get_contests_creator, verifyToken_r. rewrite !String.eqb_refl.
  cbn [negb contests coll_set]. split.
  - eexists. split; [reflexivity|].
    apply find_all_spec. split; [apply in_or_app; right; now left|].
    rewrite matches_single. now apply match_field_str.
  - intros Hne. f_equal. unfold find_all. rewrite filter_app.
    cbn [List.filter]. rewrite matches_single.
    assert (Hm : match_field (("_id", id) :: remove_field "_id" body)
                   "creatorEmail" (VStr caller) = false).
    { destruct (match_field _ _ _) eqn:E; [|reflexivity].
      apply match_field_str in E. congruence. }
    rewrite Hm. apply app_nil_r.
Qed.

Lemma contest_belongs_to_payload_owner_witness :
  exists stored,
    (forall k, k <> "_id" ->
               lookup k stored
               = lookup k (set_field "creatorEmail" (VStr "ann@x.io")
                             Sample.undated))
    /\ contests (fst (post_contests (Some "creator@x.io")
                        (set_field "creatorEmail" (VStr "ann@x.io")
                           Sample.undated) Sample.entered))
       = contests Sample.entered ++ [stored]
    /\ (exists items,
           get_contests_creator (Some "ann@x.io") "ann@x.io"
             (fst (post_contests (Some "creator@x.io")
                     (set_field "creatorEmail" (VStr "ann@x.io")
                        Sample.undated) Sample.entered))
           = Listing 200 items
           /\ In stored items)
    /\ ("creator@x.io" <> "ann@x.io" ->
        get_contests_creator (Some "creator@x.io") "creator@x.io"
          (fst (post_contests (Some "creator@x.io")
                  (set_field "creatorEmail" (VStr "ann@x.io")
                     Sample.undated) Sample.entered))
        = get_contests_creator (Some "creator@x.io") "creator@x.io"
            Sample.entered).
Proof.
  apply (contest_belongs_to_payload_owner "creator@x.io" "ann@x.io"
           (set_field "creatorEmail" (VStr "ann@x.io") Sample.undated)
           Sample.entered
           (fst (post_contests (Some "creator@x.io")
                   (set_field "creatorEmail" (VStr "ann@x.io")
                      Sample.undated) Sample.entered))
           (InsertOneResult (VOid 2)));
    reflexivity.
Defined.

(** ** The winner's contests *)

Section Winners.

Variable Date_parse : string -> option Z.

(** X28.  A declared winner finds the contest among the contests won:
    after a declaration answered 200 that names the winner by a string
    address, [GET /contests/winner/:email] for that address lists the
    contest of the declaration, closed. *)
Theorem winner_sees_contest (now : Z) (token : option string)
    (id winner : string) (body : doc) (s : store) (result : value) :
  snd (put_contests_declare_winner Date_parse now token id body s)
  = Sent 200 result ->
  lookup "winnerEmail" body = Some (VStr winner) ->
  exists n items contest,
    ObjectId.of_string id = Some n
    /\ get_contests_winner (Some winner) winner
         (fst (put_contests_declare_winner Date_parse now token id body s))
       = Listing 200 items
    /\ In contest items
    /\ lookup "_id" contest = Some (VOid n)
    /\ lookup "status" contest = Some (VStr "Closed").
Proof.
  intros H Hw.
  destruct (put_contests_declare_winner Date_parse now token id body s)
    as [s' o] eqn:Hrun.
  cbn [fst snd] in *. subst o.
  apply declare_winner_success in Hrun.
  destruct Hrun as [caller [n [contest [winnerUser [cs [us [r [r'
    [_ [_ [Hid [Hfind [_ [_ [Huser [Hcs [_ ->]]]]]]]]]]]]]]]]].
  rewrite Hw in Huser. cbn [bson] in Huser.
  apply find_first_some in Huser. destruct Huser as [_ Hmail].
  rewrite matches_single in Hmail. apply match_field_str in Hmail.
  destruct (declared_contest_found _ _ _ _ _ _ Hcs Hfind)
    as [contest' [Hfind' Happ]].
  destruct (winner_update_ok _ _ _ _ Happ) as [Hstatus [Hwinner Hsame]].
  apply find_first_some in Hfind'. destruct Hfind' as [Hin Hm].
  rewrite matches_single in Hm. apply match_field_oid in Hm.
  exists n, (List.filter (winner_email_is winner) cs), contest'.
  split; [assumption|]. split.
  - unfold get_contests_winner, verifyToken_r. now rewrite String.eqb_refl.
  - split; [|split; assumption].
    apply filter_In. split; [assumption|].
    unfold winner_email_is. rewrite Hwinner. cbn [lookup String.eqb].
    cbn. rewrite Hmail. cbn [bson]. apply value_eqb_refl.
Qed.

End Winners.

Lemma winner_sees_contest_witness :
  exists result,
    snd Sample.declaration = Sent 200 result
    /\ exists n items contest,
         ObjectId.of_string Sample.contest_id = Some n
         /\ get_contests_winner (Some "ann@x.io") "ann@x.io"
              (fst Sample.declaration) = Listing 200 items
         /\ In contest items
         /\ lookup "_id" contest = Some (VOid n)
         /\ lookup "status" contest = Some (VStr "Closed").
Proof.
  eexists. split; [vm_compute; reflexivity|].
  eapply (winner_sees_contest Sample.no_parse 2000 (Some "creator@x.io")
            Sample.contest_id "ann@x.io" Sample.declare_ann Sample.entered);
    [vm_compute; reflexivity|reflexivity].
Defined.
